(** * Sentinel-PQC scanner: a shallow embedding of [scanner.py]

    The development follows [PQCScanner] method by method: the catalog
    [TARGETS] and the alias index built by [__init__], the risk classifier
    [_calculate_risk], the key-size heuristics of [_extract_key_size], the
    tree walk [_find_calls], the per-file driver [scan_file] and the exporter
    [generate_cbom].

    Conventions.
    - Python [str] values are Rocq [string]s.  The model is about ASCII
      source text, where [bytes.decode('utf8')] is the identity and [len]
      counts bytes.
    - Python [int] is [Z].
    - The limits of the interpreter are outside the model: [int] reads a
      numeral of any length (CPython refuses more than 4300 digits by
      default) and [_find_calls] recurses to any depth.  A statement about
      what a call returns is therefore conditional on a normal return, or
      carries the bound on the text as a hypothesis ([ascii_short]).
    - A call that may raise returns a [result]; an exception propagates
      through the monadic bind exactly as it unwinds the Python stack.
    - The syntax tree provider (tree-sitter) is external: trees are values of
      type [Node], and the parser is a parameter of [scan_file]. *)

From stdpp Require Import base decidable option list strings gmap pretty.
From Stdlib Require Import ZArith Ascii String Lia.

Local Open Scope string_scope.
Local Open Scope Z_scope.

(** ** Python primitives used by the scanner *)

Module Py.

(** Exceptions the scanner code can raise. *)
Inductive exn : Type :=
| ValueError (msg : string).

Inductive result (A : Type) : Type :=
| Ok (a : A)
| Raise (e : exn).
Global Arguments Ok {A} a.
Global Arguments Raise {A} e.

Global Instance result_ret : MRet result := fun A a => Ok a.
Global Instance result_bind : MBind result := fun A B f m =>
  match m with
  | Ok a => f a
  | Raise e => Raise e
  end.

Definition raises {A} (m : result A) : bool :=
  match m with Ok _ => false | Raise _ => true end.

(** [str.upper] on ASCII text. *)
Definition ascii_upper (c : ascii) : ascii :=
  let n := nat_of_ascii c in
  if ((97 <=? n)%nat && (n <=? 122)%nat)%bool then ascii_of_nat (n - 32) else c.

Fixpoint upper (s : string) : string :=
  match s with
  | EmptyString => EmptyString
  | String c s' => String (ascii_upper c) (upper s')
  end.

(** [str.startswith]. *)
Definition startswith (s p : string) : bool := String.prefix p s.

(** [len] of a [str]. *)
Definition len (s : string) : Z := Z.of_nat (String.length s).

(** [s[:n]]. *)
Definition slice_to (n : nat) (s : string) : string := String.substring 0 n s.

(** [str.strip] for the ASCII white space characters. *)
Fixpoint lstrip (s : string) : string :=
  match s with
  | String c s' => if Ascii.is_space c then lstrip s' else s
  | EmptyString => EmptyString
  end.

Definition strip (s : string) : string :=
  String.rev (lstrip (String.rev (lstrip s))).

Definition digit_of (c : ascii) : option Z := Z.of_nat <$> Ascii.is_nat c.

(** The digit part of a base-10 [int(text)]: decimal digits, with single
    underscores allowed between two digits. [seen] records whether the
    previous character was a digit. *)
Fixpoint int_digits (acc : Z) (seen : bool) (s : string) : option Z :=
  match s with
  | EmptyString => if seen then Some acc else None
  | String c s' =>
      match digit_of c with
      | Some d => int_digits (10 * acc + d) true s'
      | None =>
          if bool_decide (c = "_"%char) && seen then int_digits acc false s'
          else None
      end
  end.

(** [int(text)] with the default base 10: surrounding white space is
    dropped, one sign is allowed, and anything that is not a decimal
    numeral ([0x800], [0o17], [0b101], [12L], the empty string, ...) raises
    [ValueError]. *)
Definition int (text : string) : result Z :=
  let body := strip text in
  let parsed :=
    match body with
    | String "-"%char ds => Z.opp <$> int_digits 0 false ds
    | String "+"%char ds => int_digits 0 false ds
    | _ => int_digits 0 false body
    end in
  match parsed with
  | Some v => Ok v
  | None =>
      Raise (ValueError ("invalid literal for int() with base 10: '" +:+ text +:+ "'"))
  end.

(** [str(n)] for an [int]: the decimal numeral, with a leading minus sign
    for negative numbers. *)
Definition str_int (n : Z) : string := pretty n.

End Py.
Import Py.

(** ** Risk tiers *)

(** The five strings that [_calculate_risk] returns. *)
Inductive RiskTier : Type := CRITICAL | HIGH | MEDIUM | LOW | UNKNOWN.

Global Instance RiskTier_eq_dec : EqDecision RiskTier.
Proof. solve_decision. Defined.

Definition risk_name (r : RiskTier) : string :=
  match r with
  | CRITICAL => "CRITICAL"
  | HIGH => "HIGH"
  | MEDIUM => "MEDIUM"
  | LOW => "LOW"
  | UNKNOWN => "UNKNOWN"
  end.

(** [bool_decide (x ∈ l)] is the Python test [x in [..]]. *)
Notation "x 'in?' l" := (bool_decide (x ∈ l))
  (at level 70, no associativity).

(** [_calculate_risk(algo, bits)].  [bits] is [None] when the caller passes
    Python's [None]; [not bits] holds for [None] and for [0]. *)
Definition _calculate_risk (algo : string) (bits : option Z) : RiskTier :=
  let algo := upper algo in
  match bits with
  | None => UNKNOWN
  | Some bits =>
      if bits =? 0 then UNKNOWN
      else if algo in? ["RSA"; "DSA"] then
        if bits <? 2048 then CRITICAL
        else if bits <? 4096 then HIGH
        else MEDIUM
      else if bool_decide (algo = "AES") then
        if bits =? 128 then MEDIUM
        else if bits in? [192; 256] then LOW
        else UNKNOWN
      else if algo in? ["EC"; "ECC"; "ECDSA"; "ECDH"] then HIGH
      else if algo in? ["DES"; "3DES"; "TRIPLEDES"] then CRITICAL
      else HIGH
  end.

(** ** The catalog and the alias index *)

(** One value of the [TARGETS] dictionary.  [aliases] is the result of
    [config.get("aliases", [])]: the empty list when the key is absent. *)
Record TargetConfig : Type := mkTargetConfig {
  methods : list string;
  arg_keys : list string;
  aliases : list string
}.

(** A Python [dict] with string keys, in insertion order. *)
Abbreviation Dict V := (list (string * V)).

(** [d.get(k)] *)
Fixpoint dict_get {V} (d : Dict V) (k : string) : option V :=
  match d with
  | [] => None
  | (k', v) :: d' => if bool_decide (k' = k) then Some v else dict_get d' k
  end.

Definition TARGETS : Dict TargetConfig := [
  ("RSA", {| methods := ["generate"; "construct"; "new_key"];
             arg_keys := ["bits"; "size"; "key_size"];
             aliases := ["RSA"; "PyRSA"; "rsa"; "_RSA"] |});
  ("DSA", {| methods := ["generate"; "construct"];
             arg_keys := ["bits"; "key_size"];
             aliases := ["DSA"; "dsa"] |});
  ("AES", {| methods := ["new"; "encrypt"; "decrypt"];
             arg_keys := ["key"; "bits"; "key_size"];
             aliases := ["AES"; "Cipher"; "aes"] |});
  ("EC", {| methods := ["generate"; "generate_private_key"; "new_key"];
            arg_keys := ["curve"];
            aliases := ["EC"; "ECC"; "ECDSA"; "ECDH"; "ec"] |});
  ("DES", {| methods := ["new"];
             arg_keys := ["key"];
             aliases := ["DES"; "DES3"; "TripleDES"] |})
].

(** The inner loop of [__init__]: [self._alias_map[alias] = canonical] for
    every alias of one entry. *)
Definition add_aliases (m : gmap string string) (entry : string * TargetConfig)
  : gmap string string :=
  foldl (fun m alias => <[alias := entry.1]> m) m (aliases entry.2).

(** The outer loop over [self.TARGETS.items()]. *)
Definition build_alias_map (targets : Dict TargetConfig) : gmap string string :=
  foldl add_aliases ∅ targets.

(** ** Syntax trees *)

(** What the scanner reads of a tree-sitter node: its [type], its source
    [text], the row of [start_point], its [children] (named and anonymous, in
    source order), and the field name under which its parent holds it. *)
Unset Elimination Schemes.
Inductive Node : Type := mkNode {
  field_name : option string;
  type : string;
  text : string;
  start_row : nat;
  children : list Node
}.
Set Elimination Schemes.

Section Node_induction.
Variable P : Node -> Prop.
Hypothesis P_node : forall f ty tx r cs, Forall P cs -> P (mkNode f ty tx r cs).

Fixpoint Node_ind (n : Node) : P n :=
  match n with
  | mkNode f ty tx r cs =>
      P_node f ty tx r cs
        ((fix all (l : list Node) : Forall P l :=
            match l with
            | [] => List.Forall_nil P
            | c :: l' => @List.Forall_cons _ P c l' (Node_ind c) (all l')
            end) cs)
  end.
End Node_induction.

(** [node.child_by_field_name(name)]: the first child held under [name]. *)
Definition child_by_field_name (node : Node) (name : string) : option Node :=
  List.find (fun c => bool_decide (field_name c = Some name)) (children node).

(** ** The scanner object *)

Record PQCScanner : Type := mkPQCScanner {
  parser : string -> Node;
  self_TARGETS : Dict TargetConfig;
  _alias_map : gmap string string
}.

(** [__init__] for a given catalog.  The body makes no check on the catalog:
    it stores it and fills the alias index, so it returns normally. *)
Definition new_scanner (parse : string -> Node) (targets : Dict TargetConfig)
  : PQCScanner :=
  {| parser := parse;
     self_TARGETS := targets;
     _alias_map := build_alias_map targets |}.

Definition init_with (parse : string -> Node) (targets : Dict TargetConfig)
  : result PQCScanner :=
  Ok (new_scanner parse targets).

(** [PQCScanner()], with tree-sitter's parser as a parameter. *)
Definition __init__ (parse : string -> Node) : result PQCScanner :=
  init_with parse TARGETS.

Definition _get_text (node : Node) : string := text node.

(** [self._alias_map.get(name, name)] *)
Definition _resolve_alias (self : PQCScanner) (name : string) : string :=
  default name (_alias_map self !! name).

(** ** Key-size extraction *)

(** One iteration of the loop of [_extract_key_size]: [Some v] when the
    iteration assigns [key_size = v] and breaks, [None] when the loop goes on
    to the next child. *)
Definition extract_step (arg_keys : list string) (child : Node)
  : result (option Z) :=
  if bool_decide (type child = "integer") then
    val ← int (_get_text child);
    if (128 <=? val) && negb (val =? 65537) then Ok (Some val) else Ok None
  else if bool_decide (type child = "keyword_argument") then
    match child_by_field_name child "name", child_by_field_name child "value" with
    | Some arg_name_node, Some arg_val_node =>
        let arg_name := _get_text arg_name_node in
        if arg_name in? arg_keys then
          if bool_decide (type arg_val_node = "integer") then
            key_size ← int (_get_text arg_val_node);
            Ok (Some key_size)
          else if type arg_val_node in? ["string"; "binary_string"] then
            let key_text := _get_text arg_val_node in
            let key_bytes :=
              if startswith key_text "b" then len key_text - 3
              else len key_text - 2 in
            Ok (Some (key_bytes * 8))
          else Ok None
        else Ok None
    | _, _ => Ok None
    end
  else Ok None.

(** The [for child in args_node.children] loop; falling off the end leaves
    [key_size = 0]. *)
Fixpoint extract_loop (arg_keys : list string) (cs : list Node) : result Z :=
  match cs with
  | [] => Ok 0
  | child :: cs' =>
      r ← extract_step arg_keys child;
      match r with
      | Some key_size => Ok key_size
      | None => extract_loop arg_keys cs'
      end
  end.

Definition _extract_key_size (args_node : option Node) (arg_keys : list string)
  : result Z :=
  match args_node with
  | None => Ok 0
  | Some args_node => extract_loop arg_keys (children args_node)
  end.

(** ** Findings *)

(** The [bits] entry of a finding: an [int], or the string ["Unknown"]. *)
Inductive Bits : Type :=
| BitsInt (n : Z)
| BitsUnknown.

Record Finding : Type := mkFinding {
  file : string;
  line : nat;
  algo : string;
  method : string;
  bits : Bits;
  risk : RiskTier;
  context : string
}.

(** The body of [if node.type == "call":] in [_find_calls]: the finding that
    is appended to [results], if any. *)
Definition match_call (self : PQCScanner) (node : Node) : result (option Finding) :=
  if bool_decide (type node = "call") then
    let func := child_by_field_name node "function" in
    let args := child_by_field_name node "arguments" in
    match func with
    | Some func =>
        if bool_decide (type func = "attribute") then
          match child_by_field_name func "object",
                child_by_field_name func "attribute" with
          | Some obj_node, Some method_node =>
              let obj_name := _get_text obj_node in
              let method_name := _get_text method_node in
              let canonical_name := _resolve_alias self obj_name in
              match dict_get (self_TARGETS self) canonical_name with
              | Some target_config =>
                  if method_name in? methods target_config then
                    key_size ← _extract_key_size args (arg_keys target_config);
                    let risk := _calculate_risk canonical_name (Some key_size) in
                    let context := _get_text node in
                    Ok (Some {| file := "";
                                line := (start_row node + 1)%nat;
                                algo := canonical_name;
                                method := method_name;
                                bits := if key_size =? 0 then BitsUnknown
                                        else BitsInt key_size;
                                risk := risk;
                                context := slice_to 100 context |})
                  else Ok None
              | None => Ok None
              end
          | _, _ => Ok None
          end
        else Ok None
    | None => Ok None
    end
  else Ok None.

(** [_find_calls(node, source_code, results)]: [results] is threaded through
    the pre-order walk; the returned list is the list after the call. *)
Fixpoint _find_calls (self : PQCScanner) (node : Node) (results : list Finding)
  : result (list Finding) :=
  found ← match_call self node;
  let results := match found with
                 | Some finding => (results ++ [finding])%list
                 | None => results
                 end in
  (fix each_child (cs : list Node) (results : list Finding) :=
     match cs with
     | [] => Ok results
     | child :: cs' =>
         results ← _find_calls self child results;
         each_child cs' results
     end) (children node) results.

(** The [for child in node.children] loop of [_find_calls], on its own. *)
Fixpoint each_child (self : PQCScanner) (cs : list Node) (results : list Finding)
  : result (list Finding) :=
  match cs with
  | [] => Ok results
  | child :: cs' =>
      results ← _find_calls self child results;
      each_child self cs' results
  end.

Definition set_file (path : string) (f : Finding) : Finding :=
  {| file := path; line := line f; algo := algo f; method := method f;
     bits := bits f; risk := risk f; context := context f |}.

Section Host.
(** The host system: [open(filepath, 'rb').read()], which gives [None] when
    it raises, and [os.path.normpath]. *)
Variable read_file : string -> option string.
Variable normpath : string -> string.

Definition scan_file (self : PQCScanner) (filepath : string)
  : result (list Finding) :=
  match read_file filepath with
  | None => Ok []
  | Some source_code =>
      let tree := parser self source_code in
      results ← _find_calls self tree [];
      Ok (List.map (set_file (normpath filepath)) results)
  end.
End Host.

(** ** The asset inventory export *)

Record Occurrence : Type := mkOccurrence {
  location : string;
  occ_line : nat;
  occ_context : string
}.

Record Property : Type := mkProperty {
  prop_name : string;
  prop_value : string
}.

Record Asset : Type := mkAsset {
  asset_type : string;
  asset_name : string;
  occurrences : list Occurrence;
  properties : list Property
}.

Record Tool : Type := mkTool {
  vendor : string;
  tool_name : string;
  tool_version : string
}.

Record Cbom : Type := mkCbom {
  bomFormat : string;
  specVersion : string;
  version : Z;
  metadata_tool : Tool;
  cryptoAssets : list Asset
}.

(** [str(finding["bits"])] *)
Definition str_bits (b : Bits) : string :=
  match b with
  | BitsInt n => str_int n
  | BitsUnknown => "Unknown"
  end.

(** The [asset] dictionary built for one finding in the loop of
    [generate_cbom]. *)
Definition asset_of (finding : Finding) : Asset :=
  {| asset_type := "algorithm";
     asset_name := algo finding;
     occurrences := [ {| location := file finding;
                         occ_line := line finding;
                         occ_context := context finding |} ];
     properties := [ {| prop_name := "keySize"; prop_value := str_bits (bits finding) |};
                     {| prop_name := "method"; prop_value := method finding |};
                     {| prop_name := "quantumRisk"; prop_value := risk_name (risk finding) |} ] |}.

(** [generate_cbom(findings)] with [output_path=None]: the returned
    dictionary.  [cbom["cryptoAssets"].append(asset)] runs once per finding. *)
Definition generate_cbom (findings : list Finding) : Cbom :=
  {| bomFormat := "CycloneDX";
     specVersion := "1.6";
     version := 1;
     metadata_tool := {| vendor := "Sentinel-PQC";
                         tool_name := "Cryptographic Scanner";
                         tool_version := "1.0.0" |};
     cryptoAssets := foldl (fun assets finding => (assets ++ [asset_of finding])%list)
                           [] findings |}.

(** ** Syntax trees of small programs

    The trees tree-sitter's Python grammar produces for the call shapes the
    properties below speak about.  Anonymous tokens ([(], [,], [)], [=], [.])
    are children too, as they are in [node.children]. *)

Module Trees.

Definition token (ty : string) (r : nat) : Node := mkNode None ty ty r [].

Definition identifier (f : option string) (name : string) (r : nat) : Node :=
  mkNode f "identifier" name r [].

(** A positional integer literal. *)
Definition integer (tx : string) (r : nat) : Node := mkNode None "integer" tx r [].

(** A positional string or bytes literal: tree-sitter gives both the type
    [string]. *)
Definition str_literal (f : option string) (tx : string) (r : nat) : Node :=
  mkNode f "string" tx r
    [ token "string_start" r; token "string_content" r; token "string_end" r ].

(** [name=value] *)
Definition keyword_argument (name : string) (value : Node) (r : nat) : Node :=
  mkNode None "keyword_argument" (name +:+ "=" +:+ text value) r
    [ identifier (Some "name") name r; token "=" r; value ].

Definition kw_integer (name tx : string) (r : nat) : Node :=
  keyword_argument name (mkNode (Some "value") "integer" tx r []) r.

Definition kw_string (name tx : string) (r : nat) : Node :=
  keyword_argument name (str_literal (Some "value") tx r) r.

(** [( a1 , a2 , ... )] *)
Fixpoint comma_separated (args : list Node) (r : nat) : list Node :=
  match args with
  | [] => []
  | [a] => [a]
  | a :: args' => a :: token "," r :: comma_separated args' r
  end.

Fixpoint comma_text (args : list Node) : string :=
  match args with
  | [] => ""
  | [a] => text a
  | a :: args' => text a +:+ ", " +:+ comma_text args'
  end.

Definition argument_list (args : list Node) (r : nat) : Node :=
  mkNode (Some "arguments") "argument_list" ("(" +:+ comma_text args +:+ ")") r
    (token "(" r :: comma_separated args r ++ [token ")" r])%list.

(** [obj.meth] as the [function] of a call. *)
Definition attribute (obj meth : string) (r : nat) : Node :=
  mkNode (Some "function") "attribute" (obj +:+ "." +:+ meth) r
    [ identifier (Some "object") obj r; token "." r;
      identifier (Some "attribute") meth r ].

(** [obj.meth(args)] *)
Definition call (f : option string) (obj meth : string) (args : list Node) (r : nat)
  : Node :=
  let al := argument_list args r in
  mkNode f "call" (obj +:+ "." +:+ meth +:+ text al) r [ attribute obj meth r; al ].

(** [lhs = rhs] as a statement. *)
Definition assignment (lhs : string) (rhs : Node) (r : nat) : Node :=
  let tx := lhs +:+ " = " +:+ text rhs in
  mkNode None "expression_statement" tx r
    [ mkNode None "assignment" tx r [ identifier (Some "left") lhs r; token "=" r; rhs ] ].

Fixpoint lines_text (stmts : list Node) : string :=
  match stmts with
  | [] => ""
  | s :: stmts' => text s +:+ String "010"%char (lines_text stmts')
  end.

Definition module (stmts : list Node) : Node :=
  mkNode None "module" (lines_text stmts) 0 stmts.

(** [weak = RSA.generate(1024)] on row [r1], then
    [strong = AES.new(<key>, MODE)] on row [r2], where [key] is the text of
    a bytes literal. *)
Definition weak_strong (r1 r2 : nat) (key : string) : Node :=
  module
    [ assignment "weak" (call (Some "right") "RSA" "generate" [integer "1024" r1] r1) r1;
      assignment "strong"
        (call (Some "right") "AES" "new"
           [str_literal None key r2; identifier None "MODE" r2] r2) r2 ].

(** [k = RSA.generate(<literal>)] as a whole file. *)
Definition rsa_generate (args : list Node) : Node :=
  module [ assignment "k" (call (Some "right") "RSA" "generate" args 0) 0 ].

End Trees.

(** ** Vocabulary of the properties *)

(** The name lists of the family tests of [_calculate_risk]. *)
Definition rsa_family : list string := ["RSA"; "DSA"].
Definition ec_family : list string := ["EC"; "ECC"; "ECDSA"; "ECDH"].
Definition des_family : list string := ["DES"; "3DES"; "TRIPLEDES"].

(** The loop of [_extract_key_size] passes over a child when its iteration
    neither assigns nor raises. *)
Definition passed_over (keys : list string) (c : Node) : Prop :=
  extract_step keys c = Ok None.

(** An argument that cannot give a key size: a child
    that is not a positional integer satisfying the rule, and not a
    recognized keyword argument with a literal value. *)
Definition no_key_size (keys : list string) (c : Node) : Prop :=
  (type c = "integer" ->
     exists v, int (_get_text c) = Ok v /\ ~ (128 <= v /\ v <> 65537)) /\
  (type c = "keyword_argument" ->
     forall n v, child_by_field_name c "name" = Some n ->
                 child_by_field_name c "value" = Some v ->
                 _get_text n ∈ keys ->
                 type v ∉ ["integer"; "string"; "binary_string"]).

(** The invariant of a finding's [bits] and [risk] entries. *)
Definition bits_wellformed (f : Finding) : Prop :=
  (bits f = BitsUnknown \/ exists n, bits f = BitsInt n /\ n <> 0) /\
  (bits f = BitsUnknown -> risk f = UNKNOWN).

(** A bytes literal of 32 bytes. *)
Definition key32_literal : string := "b'32_byte_key_..................32'".

(** The finding of [k = RSA.generate(65537)]. *)
Definition exponent_only_finding : Finding :=
  {| file := "a.py"; line := 1; algo := "RSA"; method := "generate";
     bits := BitsUnknown; risk := UNKNOWN; context := "RSA.generate(65537)" |}.

(** A catalog in which two entries list the alias [Cipher]. *)
Definition clash_aes : string * TargetConfig :=
  ("AES", {| methods := ["new"]; arg_keys := ["key"]; aliases := ["AES"; "Cipher"] |}).
Definition clash_des : string * TargetConfig :=
  ("DES", {| methods := ["new"]; arg_keys := ["key"]; aliases := ["DES"; "Cipher"] |}).
Definition clashing_catalog : Dict TargetConfig := [clash_aes; clash_des].

(** Some alias is listed by two entries with different canonical names. *)
Definition duplicate_alias (targets : Dict TargetConfig) : Prop :=
  exists (i j : nat) e1 e2 alias,
    targets !! i = Some e1 /\ targets !! j = Some e2 /\
    e1.1 <> e2.1 /\ alias ∈ aliases e1.2 /\ alias ∈ aliases e2.2.

(** Two findings of [vulnerable.py] with the same algorithm. *)
Definition rsa_1024_finding : Finding :=
  {| file := "vulnerable.py"; line := 25; algo := "RSA"; method := "generate";
     bits := BitsInt 1024; risk := CRITICAL; context := "RSA.generate(1024)" |}.
Definition rsa_2048_finding : Finding :=
  {| file := "vulnerable.py"; line := 28; algo := "RSA"; method := "generate";
     bits := BitsInt 2048; risk := HIGH; context := "RSA.generate(2048)" |}.
Definition two_rsa_findings : list Finding := [rsa_1024_finding; rsa_2048_finding].

(** An export grouped by algorithm: every algorithm of the findings has
    exactly one asset record, and that record has one occurrence per finding
    of the algorithm. *)
Definition grouped_by_algorithm (findings : list Finding) (assets : list Asset) : Prop :=
  forall a, a ∈ (algo <$> findings) ->
    exists asset,
      filter (fun x => asset_name x = a) assets = [asset] /\
      List.length (occurrences asset) = List.length (filter (fun f => algo f = a) findings).

(** The outcome the end-to-end scenario is said to have: two findings, RSA
    1024 CRITICAL on line [l1], then AES 256 LOW on line [l2]. *)
Definition claimed_weak_strong (r : result (list Finding)) (l1 l2 : nat) : Prop :=
  exists f1 f2,
    r = Ok [f1; f2] /\
    algo f1 = "RSA" /\ bits f1 = BitsInt 1024 /\ risk f1 = CRITICAL /\ line f1 = l1 /\
    algo f2 = "AES" /\ bits f2 = BitsInt 256 /\ risk f2 = LOW /\ line f2 = l2.


(** ** The walk of [_find_calls], as a list *)

(** The nodes of a tree in the order [_find_calls] reaches them: a node, then
    the nodes of its children from left to right. *)
Fixpoint nodes (n : Node) : list Node :=
  n :: (fix below (cs : list Node) : list Node :=
          match cs with
          | [] => []
          | c :: cs' => (nodes c ++ below cs')%list
          end) (children n).

Fixpoint nodes_of (cs : list Node) : list Node :=
  match cs with
  | [] => []
  | c :: cs' => (nodes c ++ nodes_of cs')%list
  end.

(** The call-site test applied to a list of nodes in order; the first
    exception ends it. *)
Fixpoint collect (self : PQCScanner) (ns : list Node) : result (list Finding) :=
  match ns with
  | [] => Ok []
  | n :: ns' =>
      found ← match_call self n;
      rest ← collect self ns';
      Ok (match found with
          | Some finding => finding :: rest
          | None => rest
          end)
  end.

(** A finding with its [context] entry blanked. *)
Definition without_context (f : Finding) : Finding :=
  {| file := file f; line := line f; algo := algo f; method := method f;
     bits := bits f; risk := risk f; context := "" |}.

Definition outcome_without_context (r : result (option Finding))
  : result (option Finding) :=
  match r with
  | Ok (Some f) => Ok (Some (without_context f))
  | other => other
  end.

(** The key size a finding's [bits] entry stands for: 0 for ["Unknown"]. *)
Definition bits_value (b : Bits) : Z :=
  match b with
  | BitsInt n => n
  | BitsUnknown => 0
  end.

(** The shape the matcher looks for: a [call] node whose [function] child is
    an [attribute] node. *)
Definition attribute_call (n : Node) : bool :=
  bool_decide (type n = "call") &&
  match child_by_field_name n "function" with
  | Some func => bool_decide (type func = "attribute")
  | None => false
  end.

(** [str.isascii]. *)
Definition is_ascii (s : string) : bool :=
  forallb (fun c => (nat_of_ascii c <? 128)%nat) (list_ascii_of_string s).

(** The text of the node is ASCII and has at most 4300 characters: there
    [decode('utf8')] cannot fail, [len] counts bytes and characters alike,
    and [int] stays below the digit limit of the interpreter. *)
Definition ascii_short (n : Node) : bool :=
  is_ascii (text n) && (String.length (text n) <=? 4300)%nat.


(** A file with crypto-looking text but no [receiver.method(...)] call:
    [rsa_description = 'RSA.generate(1024)'] and [k = generate(2048)]. *)
Definition text_only_module : Node :=
  Trees.module
    [ Trees.assignment "rsa_description"
        (Trees.str_literal (Some "right") "'RSA.generate(1024)'" 0) 0;
      Trees.assignment "k"
        (mkNode (Some "right") "call" "generate(2048)" 1
           [ Trees.identifier (Some "function") "generate" 1;
             Trees.argument_list [Trees.integer "2048" 1] 1 ]) 1 ].

(** ** Directory scans *)

(** [str.endswith(suffix)] and [str.endswith((s1, s2, ...))]. *)
Definition endswith (s suffix : string) : bool :=
  String.prefix (String.rev suffix) (String.rev s).

Definition endswith_any (s : string) (suffixes : list string) : bool :=
  existsb (endswith s) suffixes.

(** A directory as [os.walk] reports it: the names of its files and its
    subdirectories, in the order [os.walk] lists them. *)
Unset Elimination Schemes.
Inductive Dir : Type := mkDir {
  dir_name : string;
  dir_files : list string;
  dir_subdirs : list Dir
}.
Set Elimination Schemes.

Section Dir_induction.
Variable P : Dir -> Prop.
Hypothesis P_dir : forall n fs ds, Forall P ds -> P (mkDir n fs ds).

Fixpoint Dir_ind (d : Dir) : P d :=
  match d with
  | mkDir n fs ds =>
      P_dir n fs ds
        ((fix all (l : list Dir) : Forall P l :=
            match l with
            | [] => List.Forall_nil P
            | c :: l' => @List.Forall_cons _ P c l' (Dir_ind c) (all l')
            end) ds)
  end.
End Dir_induction.

(** The directory names [scan_directory] removes from [dirs]. *)
Definition skipped_dirs : list string :=
  ["__pycache__"; ".git"; "node_modules"; "venv"; ".venv"; "env"].

Section Directories.
(** The host system: reading a file, [os.path.normpath], [os.path.join],
    and the directory tree below a path ([None] when the path is not a
    directory, where [os.walk] yields nothing). *)
Variable read_file : string -> option string.
Variable normpath : string -> string.
Variable path_join : string -> string -> string.
Variable directory_at : string -> option Dir.

(** [for file in files:] for one [root] of the walk. *)
Fixpoint scan_files (self : PQCScanner) (extensions : list string) (root : string)
    (files : list string) (all_results : list Finding) : result (list Finding) :=
  match files with
  | [] => Ok all_results
  | file :: files' =>
      if endswith_any file extensions then
        let filepath := path_join root file in
        results ← scan_file read_file normpath self filepath;
        scan_files self extensions root files' (all_results ++ results)%list
      else scan_files self extensions root files' all_results
  end.

(** The loop over [os.walk(dirpath)]: the files of [root], then, top-down,
    the subdirectories that [dirs[:] = [...]] left in [dirs]. *)
Fixpoint walk (self : PQCScanner) (extensions : list string) (root : string)
    (d : Dir) (all_results : list Finding) : result (list Finding) :=
  all_results ← scan_files self extensions root (dir_files d) all_results;
  (fix each_dir (ds : list Dir) (all_results : list Finding) :=
     match ds with
     | [] => Ok all_results
     | sub :: ds' =>
         if dir_name sub in? skipped_dirs then each_dir ds' all_results
         else
           all_results ← walk self extensions (path_join root (dir_name sub)) sub
                           all_results;
           each_dir ds' all_results
     end) (dir_subdirs d) all_results.

(** The loop over the subdirectories, on its own. *)
Fixpoint walk_dirs (self : PQCScanner) (extensions : list string) (root : string)
    (ds : list Dir) (all_results : list Finding) : result (list Finding) :=
  match ds with
  | [] => Ok all_results
  | sub :: ds' =>
      if dir_name sub in? skipped_dirs then walk_dirs self extensions root ds' all_results
      else
        all_results ← walk self extensions (path_join root (dir_name sub)) sub
                        all_results;
        walk_dirs self extensions root ds' all_results
  end.

Definition scan_directory (self : PQCScanner) (dirpath : string)
    (extensions : list string) : result (list Finding) :=
  match directory_at dirpath with
  | Some d => walk self extensions dirpath d []
  | None => Ok []
  end.

(** The paths a directory scan hands to [scan_file], in order. *)
Fixpoint visited (extensions : list string) (root : string) (d : Dir) : list string :=
  ((path_join root <$> filter (fun file => endswith_any file extensions = true)
                         (dir_files d))
   ++ (fix below (ds : list Dir) : list string :=
         match ds with
         | [] => []
         | sub :: ds' =>
             if dir_name sub in? skipped_dirs then below ds'
             else (visited extensions (path_join root (dir_name sub)) sub
                   ++ below ds')%list
         end) (dir_subdirs d))%list.

Fixpoint visited_dirs (extensions : list string) (root : string) (ds : list Dir)
  : list string :=
  match ds with
  | [] => []
  | sub :: ds' =>
      if dir_name sub in? skipped_dirs then visited_dirs extensions root ds'
      else (visited extensions (path_join root (dir_name sub)) sub
            ++ visited_dirs extensions root ds')%list
  end.

(** What [os.walk] yields after the pruning of [dirs]: each [root] with its
    [files], top-down. *)
Fixpoint walk_roots (root : string) (d : Dir) : list (string * list string) :=
  (root, dir_files d)
  :: (fix below (ds : list Dir) : list (string * list string) :=
        match ds with
        | [] => []
        | sub :: ds' =>
            if dir_name sub in? skipped_dirs then below ds'
            else (walk_roots (path_join root (dir_name sub)) sub ++ below ds')%list
        end) (dir_subdirs d).

Fixpoint walk_roots_dirs (root : string) (ds : list Dir) : list (string * list string) :=
  match ds with
  | [] => []
  | sub :: ds' =>
      if dir_name sub in? skipped_dirs then walk_roots_dirs root ds'
      else (walk_roots (path_join root (dir_name sub)) sub
            ++ walk_roots_dirs root ds')%list
  end.

(** [scan_file] on each path in turn, extending [all_results]. *)
Fixpoint scan_paths (self : PQCScanner) (paths : list string)
    (all_results : list Finding) : result (list Finding) :=
  match paths with
  | [] => Ok all_results
  | p :: paths' =>
      results ← scan_file read_file normpath self p;
      scan_paths self paths' (all_results ++ results)%list
  end.
End Directories.

(** A directory tree without the subdirectories, at any depth, whose name is
    in the skip list. *)
Fixpoint prune (d : Dir) : Dir :=
  mkDir (dir_name d) (dir_files d)
    ((fix kept (ds : list Dir) : list Dir :=
        match ds with
        | [] => []
        | sub :: ds' =>
            if dir_name sub in? skipped_dirs then kept ds'
            else prune sub :: kept ds'
        end) (dir_subdirs d)).

Fixpoint prune_dirs (ds : list Dir) : list Dir :=
  match ds with
  | [] => []
  | sub :: ds' =>
      if dir_name sub in? skipped_dirs then prune_dirs ds'
      else prune sub :: prune_dirs ds'
  end.

(** A source tree with a vendored directory:
    [proj/app.py], [proj/README.md], [proj/node_modules/dep.py],
    [proj/src/keys.py]. *)
Definition sample_project : Dir :=
  mkDir "proj" ["app.py"; "README.md"]
    [ mkDir "node_modules" ["dep.py"] [];
      mkDir "src" ["keys.py"] [] ].

Definition slash_join (a b : string) : string := a +:+ "/" +:+ b.

(** ** More Python primitives, used by the remediator and the CLI *)

Module PyLib.

(** The exceptions the remediator's own code can raise. *)
Inductive exception : Type :=
| IndexError
| ValueError
| KeyError
| OSError.

Inductive outcome (A : Type) : Type :=
| Returns (a : A)
| Raises (e : exception).
Global Arguments Returns {A} a.
Global Arguments Raises {A} e.

Global Instance outcome_ret : MRet outcome := fun A a => Returns a.
Global Instance outcome_bind : MBind outcome := fun A B f m =>
  match m with
  | Returns a => f a
  | Raises e => Raises e
  end.

(** [str.lower] on ASCII text. *)
Definition ascii_lower (c : ascii) : ascii :=
  let n := nat_of_ascii c in
  if ((65 <=? n)%nat && (n <=? 90)%nat)%bool then ascii_of_nat (n + 32) else c.

Fixpoint lower (s : string) : string :=
  match s with
  | EmptyString => EmptyString
  | String c s' => String (ascii_lower c) (lower s')
  end.

(** The ASCII characters [str.rstrip()] removes: tab, line feed, vertical
    tab, form feed, carriage return, the separators 28 to 31 and the
    space. *)
Definition is_whitespace (c : ascii) : bool :=
  let n := nat_of_ascii c in
  (((9 <=? n)%nat && (n <=? 13)%nat) || ((28 <=? n)%nat && (n <=? 32)%nat))%bool.

Fixpoint lstrip_whitespace (s : string) : string :=
  match s with
  | String c s' => if is_whitespace c then lstrip_whitespace s' else s
  | EmptyString => EmptyString
  end.

(** [str.rstrip()] *)
Definition rstrip (s : string) : string :=
  String.rev (lstrip_whitespace (String.rev s)).

(** How a slice bound is adjusted to a sequence of length [n]: a negative
    bound counts from the end, and the result is clipped to [0..n]. *)
Definition clamp_index (n i : Z) : Z :=
  if i <? 0 then Z.max 0 (i + n) else Z.min i n.

(** [l[i:j]] *)
Definition slice {A} (l : list A) (i j : Z) : list A :=
  let n := Z.of_nat (List.length l) in
  let i' := clamp_index n i in
  let j' := clamp_index n j in
  take (Z.to_nat (j' - i')) (drop (Z.to_nat i') l).

(** [l[i]]: a negative index counts from the end; out of range raises
    [IndexError]. *)
Definition getitem {A} (l : list A) (i : Z) : outcome A :=
  let n := Z.of_nat (List.length l) in
  let j := if i <? 0 then i + n else i in
  if (0 <=? j) && (j <? n) then
    match l !! Z.to_nat j with
    | Some x => Returns x
    | None => Raises IndexError
    end
  else Raises IndexError.

(** [l.index(x)]: the first position of [x]; [ValueError] when absent. *)
Fixpoint index (l : list string) (x : string) : outcome Z :=
  match l with
  | [] => Raises ValueError
  | y :: l' => if bool_decide (y = x) then Returns 0 else i ← index l' x; Returns (i + 1)
  end.

Fixpoint spaces (n : nat) : string :=
  match n with
  | O => ""
  | S n' => String " " (spaces n')
  end.

(** [f"{i:4d}"]: the decimal numeral, right-aligned in a field of width 4. *)
Definition format_4d (i : Z) : string :=
  let s := pretty i in spaces (4 - String.length s) +:+ s.

(** [sep.join(l)] *)
Fixpoint join (sep : string) (l : list string) : string :=
  match l with
  | [] => ""
  | [x] => x
  | x :: l' => x +:+ sep +:+ join sep l'
  end.

(** [list.sort(key=...)] on a list decorated with its keys: a stable sort,
    written as insertion from the right, where an element goes before the
    elements already placed whose key is not smaller. *)
Fixpoint insert_by_key {A} (k : Z) (x : A) (l : list (Z * A)) : list (Z * A) :=
  match l with
  | [] => [(k, x)]
  | (k', y) :: l' =>
      if k <=? k' then (k, x) :: l else (k', y) :: insert_by_key k x l'
  end.

Fixpoint stable_sort {A} (l : list (Z * A)) : list (Z * A) :=
  match l with
  | [] => []
  | (k, x) :: l' => insert_by_key k x (stable_sort l')
  end.

Definition nl : string := String "010"%char "".

End PyLib.

(** ** The remediator *)

Module Remediator.
Import PyLib.

Definition CONTEXT_LINES : Z := 5.

Definition PRIORITY_RISKS : list string := ["CRITICAL"; "HIGH"].

Record FixRule : Type := mkFixRule {
  rule_fix : string;
  rule_reason : string;
  rule_nist_ref : string
}.

Definition STANDARD_FIXES : list ((string * string * option Z) * FixRule) := [
  (("RSA", "generate", Some 1024),
   {| rule_fix := "RSA.generate(4096)";
      rule_reason := "RSA-1024 is cryptographically weak. Upgrade to 4096 bits for crypto-agility.";
      rule_nist_ref := "NIST SP 800-131A Rev.2" |});
  (("RSA", "generate", Some 2048),
   {| rule_fix := "RSA.generate(4096)";
      rule_reason := "RSA-2048 is quantum-vulnerable. Upgrade to 4096 bits as interim measure.";
      rule_nist_ref := "CNSA 2.0 (2025 deadline)" |});
  (("DSA", "generate", Some 1024),
   {| rule_fix := "# CRITICAL: Migrate to Ed25519 or ML-DSA" +:+ nl +:+ "# from cryptography.hazmat.primitives.asymmetric.ed25519 import Ed25519PrivateKey" +:+ nl +:+ "# key = Ed25519PrivateKey.generate()";
      rule_reason := "DSA-1024 is deprecated. Migrate to Edwards curves or ML-DSA (Dilithium).";
      rule_nist_ref := "FIPS 186-5" |});
  (("DSA", "generate", Some 2048),
   {| rule_fix := "# WARNING: Plan migration to ML-DSA (Dilithium)" +:+ nl +:+ "# DSA is quantum-vulnerable regardless of key size";
      rule_reason := "DSA is vulnerable to Shor's algorithm. Plan PQC migration.";
      rule_nist_ref := "NIST PQC Standards" |});
  (("AES", "new", None),
   {| rule_fix := "AES.new(key, AES.MODE_GCM, nonce=nonce)";
      rule_reason := "Ensure authenticated encryption. Use GCM mode for integrity protection.";
      rule_nist_ref := "NIST SP 800-38D" |});
  (("DES", "new", None),
   {| rule_fix := "# CRITICAL: Replace DES with AES-256-GCM" +:+ nl +:+ "from Crypto.Cipher import AES" +:+ nl +:+ "cipher = AES.new(key_256, AES.MODE_GCM)";
      rule_reason := "DES is completely broken. Replace with AES-256 immediately.";
      rule_nist_ref := "NIST SP 800-131A" |});
  (("DES3", "new", None),
   {| rule_fix := "# CRITICAL: Replace 3DES with AES-256-GCM" +:+ nl +:+ "from Crypto.Cipher import AES" +:+ nl +:+ "cipher = AES.new(key_256, AES.MODE_GCM)";
      rule_reason := "3DES is deprecated. Replace with AES-256.";
      rule_nist_ref := "NIST SP 800-131A" |})
].

Definition PQC_MIGRATIONS : Dict string := [
  ("RSA", "ML-KEM (Kyber) for key exchange, ML-DSA (Dilithium) for signatures");
  ("DSA", "ML-DSA (Dilithium) or SLH-DSA (SPHINCS+)");
  ("ECDSA", "ML-DSA (Dilithium) for signatures");
  ("ECDH", "ML-KEM (Kyber) for key exchange");
  ("DH", "ML-KEM (Kyber) for key exchange")
].

(** [key in d] and [d[key]] for the tuple-keyed rule dictionary. *)
Fixpoint rules_get (d : list ((string * string * option Z) * FixRule))
    (key : string * string * option Z) : option FixRule :=
  match d with
  | [] => None
  | (k, v) :: d' => if bool_decide (k = key) then Some v else rules_get d' key
  end.

(** What [open(filepath, 'r', ...)] and [f.readlines()] do: the lines of the
    file, each with its line end, or [FileNotFoundError], or another
    error. *)
Inductive ReadOutcome : Type :=
| Lines (lines : list string)
| FileNotFoundError
| OtherReadError.

(** The dictionary [extract_context] returns; the error dictionary has no
    [start_line] and [end_line] keys. *)
Record Context : Type := mkContext {
  before : list string;
  target : string;
  after : list string;
  full : string;
  start_line : option Z;
  end_line : option Z
}.

(** The loop over [enumerate(lines[start:end], start=start + 1)]. *)
Fixpoint numbered (i line_number : Z) (window : list string) : list string :=
  match window with
  | [] => []
  | line :: window' =>
      let marker := if i =? line_number then " >> " else "    " in
      (format_4d i +:+ marker +:+ rstrip line) :: numbered (i + 1) line_number window'
  end.

Section Files.
Variable read_lines : string -> ReadOutcome.

Definition extract_context (filepath : string) (line_number context_lines : Z)
  : outcome Context :=
  match read_lines filepath with
  | FileNotFoundError =>
      Returns {| before := [];
                 target := "# ERROR: File not found: " +:+ filepath;
                 after := [];
                 full := "# ERROR: Could not read " +:+ filepath;
                 start_line := None;
                 end_line := None |}
  | OtherReadError => Raises OSError
  | Lines lines =>
      let total_lines := Z.of_nat (List.length lines) in
      let idx := line_number - 1 in
      let start := Z.max 0 (idx - context_lines) in
      let end_ := Z.min total_lines (idx + context_lines + 1) in
      let before := slice lines start idx in
      target ← (if idx <? total_lines then getitem lines idx else Returns "");
      let after := if idx + 1 <? total_lines then slice lines (idx + 1) end_ else [] in
      let context_lines_numbered := numbered (start + 1) line_number (slice lines start end_) in
      Returns {| before := rstrip <$> before;
                 target := rstrip target;
                 after := rstrip <$> after;
                 full := join nl context_lines_numbered;
                 start_line := Some (start + 1);
                 end_line := Some end_ |}
  end.
End Files.

(** [get_standard_fix(algo, method, bits)]; [bits] is an [int] or [None]. *)
Definition get_standard_fix (algo method : string) (bits : option Z) : option FixRule :=
  let key := (upper algo, lower method, bits) in
  match rules_get STANDARD_FIXES key with
  | Some rule => Some rule
  | None =>
      let key_general := (upper algo, lower method, None) in
      rules_get STANDARD_FIXES key_general
  end.

(** [ask_llm_for_fix(code_snippet, finding)] *)
Definition ask_llm_for_fix (code_snippet : string) (finding : Finding) : string :=
  let algo := algo finding in
  let pqc_suggestion :=
    default "Consult NIST PQC standards" (dict_get PQC_MIGRATIONS algo) in
  "# AI-GENERATED FIX (Placeholder)" +:+ nl +:+
  "# TODO: Implement actual LLM call for intelligent fix generation" +:+ nl +:+
  "# " +:+ nl +:+
  "# For " +:+ algo +:+ ", consider migrating to:" +:+ nl +:+
  "# " +:+ pqc_suggestion +:+ nl +:+
  "#" +:+ nl +:+
  "# This is a placeholder. In production:" +:+ nl +:+
  "# 1. Call OpenAI/Gemini API with the code context" +:+ nl +:+
  "# 2. Request a secure replacement following NIST guidelines" +:+ nl +:+
  "# 3. Validate the generated code before applying" +:+ nl.

(** The dictionary [generate_fix] returns. *)
Record Fix : Type := mkFix {
  fix_text : string;
  reason : string;
  reference : string;
  source : string;
  confidence : string
}.

(** The [bits] of a finding as [generate_fix] passes them on: an [int] as it
    is; a string through [int(bits)], with [None] when that raises. *)
Definition fix_bits (b : Bits) : option Z :=
  match b with
  | BitsInt n => Some n
  | BitsUnknown =>
      match int "Unknown" with
      | Ok n => Some n
      | Raise _ => None
      end
  end.

(** [generate_fix(finding, context)] *)
Definition generate_fix (finding : Finding) (context : Context) : Fix :=
  let algo := algo finding in
  let method := method finding in
  let bits := fix_bits (bits finding) in
  let standard := get_standard_fix algo method bits in
  match standard with
  | Some standard =>
      {| fix_text := rule_fix standard;
         reason := rule_reason standard;
         reference := rule_nist_ref standard;
         source := "RULE_ENGINE";
         confidence := "HIGH" |}
  | None =>
      let ai_fix := ask_llm_for_fix (full context) finding in
      {| fix_text := ai_fix;
         reason := "No standard fix available for " +:+ algo +:+ "." +:+ method
                   +:+ ". AI-generated suggestion.";
         reference := "NIST PQC Standards";
         source := "LLM_SKELETON";
         confidence := "REVIEW_REQUIRED" |}
  end.

(** The head of [generate_remediation_plan]: the findings whose risk is in
    [PRIORITY_RISKS], sorted by the position of their risk in that list. *)
Fixpoint sort_keys (findings : list Finding) : outcome (list Z) :=
  match findings with
  | [] => Returns []
  | x :: findings' =>
      k ← index PRIORITY_RISKS (risk_name (risk x));
      ks ← sort_keys findings';
      Returns (k :: ks)
  end.

Definition priority_findings (findings : list Finding) : outcome (list Finding) :=
  let priority_findings :=
    filter (fun f => risk_name (risk f) ∈ PRIORITY_RISKS) findings in
  keys ← sort_keys priority_findings;
  Returns (snd <$> stable_sort (zip keys priority_findings)).

(** The position in [PRIORITY_RISKS] of the risk of a priority finding. *)
Definition sort_key (f : Finding) : Z :=
  match risk f with
  | CRITICAL => 0
  | _ => 1
  end.

(** The three counts of the executive summary. *)
Definition summary_counts (priority_findings : list Finding) : nat * nat * nat :=
  let critical_count :=
    List.length (filter (fun f => risk_name (risk f) = "CRITICAL") priority_findings) in
  let high_count :=
    List.length (filter (fun f => risk_name (risk f) = "HIGH") priority_findings) in
  (critical_count, high_count, List.length priority_findings).

Section Plan.
Variable read_lines : string -> ReadOutcome.
Variable path_join : string -> string -> string.

(** One round of the loop over the priority findings: the context window and
    the fix the section of the report is written from. *)
Definition remediation_step (base_path : string) (finding : Finding)
  : outcome (Context * Fix) :=
  let filepath := file finding in
  let line := Z.of_nat (line finding) in
  let full_path := path_join base_path filepath in
  context ← extract_context read_lines full_path line CONTEXT_LINES;
  let fix_result := generate_fix finding context in
  Returns (context, fix_result).
End Plan.

End Remediator.

(** ** The summary of the command line tool *)

Module Cli.
Import PyLib.

(** [d[k] += 1] *)
Definition increment (k : string) (d : gmap string nat) : outcome (gmap string nat) :=
  match d !! k with
  | Some n => Returns (<[k := (n + 1)%nat]> d)
  | None => Raises KeyError
  end.

(** [d[k]] *)
Definition subscript (k : string) (d : gmap string nat) : outcome nat :=
  match d !! k with
  | Some n => Returns n
  | None => Raises KeyError
  end.

Definition initial_risk_counts : gmap string nat :=
  <["CRITICAL" := 0%nat]> (<["HIGH" := 0%nat]> (<["MEDIUM" := 0%nat]>
    (<["LOW" := 0%nat]> (<["UNKNOWN" := 0%nat]> ∅)))).

(** The loop [for f in findings:] of [print_summary]. *)
Fixpoint count_risks (findings : list Finding) (risk_counts : gmap string nat)
  : outcome (gmap string nat) :=
  match findings with
  | [] => Returns risk_counts
  | f :: findings' =>
      let risk := risk_name (risk f) in
      risk_counts ← (if bool_decide (is_Some (risk_counts !! risk))
                     then increment risk risk_counts
                     else increment "UNKNOWN" risk_counts);
      count_risks findings' risk_counts
  end.

(** The numbers [print_summary] prints before the score: the counts per
    risk, [vulnerable] and [total]. *)
Record Summary : Type := mkSummary {
  risk_counts : gmap string nat;
  vulnerable : nat;
  total : nat
}.

Definition print_summary (findings : list Finding) : outcome Summary :=
  risk_counts ← count_risks findings initial_risk_counts;
  critical ← subscript "CRITICAL" risk_counts;
  high ← subscript "HIGH" risk_counts;
  let vulnerable := (critical + high)%nat in
  let total := if (List.length findings =? 0)%nat then 1%nat else List.length findings in
  Returns {| risk_counts := risk_counts; vulnerable := vulnerable; total := total |}.

(** The number of findings of one risk. *)
Definition count_of (r : RiskTier) (findings : list Finding) : nat :=
  List.length (filter (fun f => risk f = r) findings).

End Cli.
(** * Properties *)

(** ** The risk classifier *)

Section Risk.
Variable algo : string.

Lemma risk_missing : _calculate_risk algo None = UNKNOWN.
Proof. reflexivity. Qed.

Lemma risk_zero : _calculate_risk algo (Some 0) = UNKNOWN.
Proof. reflexivity. Qed.

(** With a size that is present and not zero, the classifier is the chain
    of family tests on the upper-cased name. *)
Lemma risk_nonzero (b : Z) :
  b <> 0 ->
  _calculate_risk algo (Some b) =
    if upper algo in? rsa_family then
      if b <? 2048 then CRITICAL else if b <? 4096 then HIGH else MEDIUM
    else if bool_decide (upper algo = "AES") then
      if b =? 128 then MEDIUM else if b in? [192; 256] then LOW else UNKNOWN
    else if upper algo in? ec_family then HIGH
    else if upper algo in? des_family then CRITICAL
    else HIGH.
Proof.
  intros Hb. unfold _calculate_risk.
  destruct (Z.eqb_spec b 0) as [E|_]; [contradiction|reflexivity].
Qed.
End Risk.

(** Closed decidable side conditions, by evaluation. *)
Ltac decide_closed :=
  match goal with |- ?P => apply (bool_decide_unpack P) end; vm_compute; exact I.

Ltac family_cases H :=
  unfold rsa_family, ec_family, des_family in H;
  repeat (apply elem_of_cons in H as [H|H]);
  [..| by apply not_elem_of_nil in H].

(** C5 as stated fails: the zero and missing sizes are classified UNKNOWN
    before any family is looked at. *)
Lemma calculate_risk_ec_zero_size_unknown :
  _calculate_risk "EC" (Some 0) <> HIGH /\
  _calculate_risk "ECDSA" None <> HIGH /\
  _calculate_risk "DES" (Some 0) <> CRITICAL /\
  _calculate_risk "3DES" None <> CRITICAL.
Proof. repeat split; discriminate. Qed.

(** C5, amended: for every key size that is present and not zero, the
    classifier yields HIGH for the elliptic-curve family (EC, ECC, ECDSA,
    ECDH) and CRITICAL for the DES family (DES, 3DES, TRIPLEDES), whatever
    the size; names are compared after upper-casing. *)
Theorem calculate_risk_ec_des_any_nonzero_size (algo : string) (b : Z) :
  b <> 0 ->
  (upper algo ∈ ec_family -> _calculate_risk algo (Some b) = HIGH) /\
  (upper algo ∈ des_family -> _calculate_risk algo (Some b) = CRITICAL).
Proof.
  intros Hb. rewrite risk_nonzero by done.
  split; intros H; family_cases H; rewrite H; reflexivity.
Qed.

Lemma calculate_risk_ec_des_any_nonzero_size_witness :
  521 <> 0 /\
  ((upper "ecdsa" ∈ ec_family -> _calculate_risk "ecdsa" (Some 521) = HIGH) /\
   (upper "ecdsa" ∈ des_family -> _calculate_risk "ecdsa" (Some 521) = CRITICAL)).
Proof.
  split; [lia | apply (calculate_risk_ec_des_any_nonzero_size "ecdsa" 521); lia].
Defined.

(** C6: the classifier is the ordered decision procedure: a missing or zero
    size gives UNKNOWN for every algorithm; otherwise RSA and DSA give
    CRITICAL below 2048, HIGH below 4096 and MEDIUM from 4096 on; AES gives
    MEDIUM at 128, LOW at 192 and 256 and UNKNOWN at every other size; and a
    name outside the RSA/DSA, AES, elliptic-curve and DES families gives
    HIGH. *)
Theorem calculate_risk_decision_procedure (algo : string) (bits : option Z) :
  (bits = None \/ bits = Some 0 -> _calculate_risk algo bits = UNKNOWN) /\
  (forall b, bits = Some b -> b <> 0 -> upper algo ∈ rsa_family ->
     (b < 2048 -> _calculate_risk algo bits = CRITICAL) /\
     (2048 <= b < 4096 -> _calculate_risk algo bits = HIGH) /\
     (4096 <= b -> _calculate_risk algo bits = MEDIUM)) /\
  (forall b, bits = Some b -> b <> 0 -> upper algo = "AES" ->
     (b = 128 -> _calculate_risk algo bits = MEDIUM) /\
     (b = 192 \/ b = 256 -> _calculate_risk algo bits = LOW) /\
     (b <> 128 -> b <> 192 -> b <> 256 -> _calculate_risk algo bits = UNKNOWN)) /\
  (forall b, bits = Some b -> b <> 0 ->
     upper algo ∉ rsa_family -> upper algo <> "AES" ->
     upper algo ∉ ec_family -> upper algo ∉ des_family ->
     _calculate_risk algo bits = HIGH).
Proof.
  split; [|split; [|split]].
  - intros [-> | ->]; reflexivity.
  - intros b -> Hb Hfam. rewrite risk_nonzero by done.
    rewrite bool_decide_eq_true_2 by done.
    repeat split; intros; repeat case_match; try reflexivity; lia.
  - intros b -> Hb Haes. rewrite risk_nonzero by done. rewrite Haes.
    change ("AES" in? rsa_family) with false.
    change (bool_decide ("AES" = "AES")) with true. cbv iota.
    repeat split.
    + intros ->. reflexivity.
    + intros [-> | ->]; reflexivity.
    + intros H1 H2 H3. destruct (Z.eqb_spec b 128); [done|].
      rewrite bool_decide_eq_false_2; [done|].
      intros Hin. repeat (apply elem_of_cons in Hin as [Hin|Hin]); try done.
      by apply not_elem_of_nil in Hin.
  - intros b -> Hb H1 H2 H3 H4. rewrite risk_nonzero by done.
    by rewrite !bool_decide_eq_false_2.
Qed.

Lemma calculate_risk_decision_procedure_witness :
  _calculate_risk "rsa" (Some 0) = UNKNOWN /\
  _calculate_risk "Dsa" (Some 1024) = CRITICAL /\
  _calculate_risk "RSA" (Some 2048) = HIGH /\
  _calculate_risk "RSA" (Some 8192) = MEDIUM /\
  _calculate_risk "aes" (Some 256) = LOW /\
  _calculate_risk "AES" (Some 512) = UNKNOWN /\
  _calculate_risk "ChaCha20" (Some 256) = HIGH.
Proof.
  split; [|split; [|split; [|split; [|split; [|split]]]]].
  - destruct (calculate_risk_decision_procedure "rsa" (Some 0)) as (H & _).
    apply H. by right.
  - destruct (calculate_risk_decision_procedure "Dsa" (Some 1024)) as (_ & H & _).
    destruct (H 1024) as (H1 & _); [reflexivity | lia | decide_closed |].
    apply H1. lia.
  - destruct (calculate_risk_decision_procedure "RSA" (Some 2048)) as (_ & H & _).
    destruct (H 2048) as (_ & H2 & _); [reflexivity | lia | decide_closed |].
    apply H2. lia.
  - destruct (calculate_risk_decision_procedure "RSA" (Some 8192)) as (_ & H & _).
    destruct (H 8192) as (_ & _ & H3); [reflexivity | lia | decide_closed |].
    apply H3. lia.
  - destruct (calculate_risk_decision_procedure "aes" (Some 256)) as (_ & _ & H & _).
    destruct (H 256) as (_ & H2 & _); [reflexivity | lia | reflexivity |].
    apply H2. by right.
  - destruct (calculate_risk_decision_procedure "AES" (Some 512)) as (_ & _ & H & _).
    destruct (H 512) as (_ & _ & H3); [reflexivity | lia | reflexivity |].
    apply H3; lia.
  - destruct (calculate_risk_decision_procedure "ChaCha20" (Some 256)) as (_ & _ & _ & H).
    apply (H 256); [reflexivity | lia | decide_closed ..].
Defined.

(** ** Key-size extraction *)


Section Extraction.
Variable keys : list string.

Lemma extract_step_integer (child : Node) (v : Z) :
  type child = "integer" -> int (_get_text child) = Ok v ->
  extract_step keys child =
    Ok (if (128 <=? v) && negb (v =? 65537) then Some v else None).
Proof.
  intros Hty Hint. unfold extract_step.
  rewrite bool_decide_eq_true_2 by done. rewrite Hint. simpl.
  by destruct ((128 <=? v) && negb (v =? 65537)).
Qed.

Lemma extract_step_other (child : Node) :
  type child <> "integer" -> type child <> "keyword_argument" ->
  passed_over keys child.
Proof.
  intros H1 H2. unfold passed_over, extract_step.
  by rewrite !bool_decide_eq_false_2.
Qed.


Lemma extract_loop_passed (pre rest : list Node) :
  Forall (passed_over keys) pre ->
  extract_loop keys (pre ++ rest) = extract_loop keys rest.
Proof.
  induction 1 as [|c pre Hc _ IH]; [done|].
  simpl. rewrite Hc. simpl. exact IH.
Qed.

Lemma extract_loop_all_passed (cs : list Node) :
  Forall (passed_over keys) cs -> extract_loop keys cs = Ok 0.
Proof.
  intros H. rewrite <- (app_nil_r cs). by rewrite extract_loop_passed.
Qed.
End Extraction.

(** In an argument list of ASCII text with no node of more than 4300
    characters, a positional integer literal that [int] reads (a decimal
    numeral), with value [v], is taken as the key size exactly when
    [v >= 128] and [v <> 65537].  When it is reached (the arguments before
    it were passed over) a qualifying literal ends the extraction with [v];
    otherwise the extraction goes on with the arguments after it, and with
    nothing qualifying there ([RSA.generate(65537)]) the key size is 0, the
    unknown size. *)
Lemma positional_integer_rule
    (keys : list string) (args child : Node) (pre post : list Node) (v : Z) :
  Forall (fun n => ascii_short n = true) (nodes args) ->
  type child = "integer" ->
  int (_get_text child) = Ok v ->
  children args = (pre ++ child :: post)%list ->
  Forall (passed_over keys) pre ->
  (extract_step keys child = Ok (Some v) <-> 128 <= v /\ v <> 65537) /\
  (128 <= v /\ v <> 65537 -> _extract_key_size (Some args) keys = Ok v) /\
  (~ (128 <= v /\ v <> 65537) ->
     _extract_key_size (Some args) keys = extract_loop keys post) /\
  (v = 65537 -> Forall (passed_over keys) post ->
     _extract_key_size (Some args) keys = Ok 0).
Proof.
  intros _ Hty Hint Hcs Hpre.
  pose proof (extract_step_integer keys child v Hty Hint) as Hstep.
  assert (Hloop : _extract_key_size (Some args) keys =
                  if (128 <=? v) && negb (v =? 65537) then Ok v
                  else extract_loop keys post).
  { simpl. rewrite Hcs, extract_loop_passed by done. simpl. rewrite Hstep. simpl.
    by destruct ((128 <=? v) && negb (v =? 65537)). }
  destruct (Z.leb_spec 128 v) as [Hge|Hlt], (Z.eqb_spec v 65537) as [He|Hne];
    simpl in Hstep, Hloop.
  all: split; [rewrite Hstep; split; [intros [=] | intros [? ?]]; (lia || done) |].
  all: split; [intros [? ?]; (lia || done) |].
  all: split; [intros Hn; (exact Hloop || (exfalso; apply Hn; lia)) |].
  all: intros Hv Hpost; try lia.
  all: etrans; [exact Hloop | by apply extract_loop_all_passed].
Qed.

Example extract_exponent_only :
  _extract_key_size (Some (Trees.argument_list [Trees.integer "65537" 0] 0))
    ["bits"; "size"; "key_size"] = Ok 0.
Proof. reflexivity. Qed.

(** C7: the acceptance rule is not what the code does for a positional
    integer literal that is not written in decimal.  In
    [RSA.generate(0x800)] the literal has the value 2048, at least 128 and
    not 65537, so it is to be accepted as the key size; the extraction calls
    [int] on the text [0x800] and raises [ValueError] instead. *)
Theorem positional_hex_literal_raises :
  _extract_key_size (Some (Trees.argument_list [Trees.integer "0x800" 0] 0))
    ["bits"; "size"; "key_size"]
  = Raise (ValueError "invalid literal for int() with base 10: '0x800'").
Proof. reflexivity. Qed.











(** The cases the specification lists, on whole calls. *)
Example extract_bits_keyword_before_exponent :
  _extract_key_size
    (Some (Trees.argument_list
             [Trees.kw_integer "bits" "2048" 0; Trees.kw_integer "e" "65537" 0] 0))
    ["bits"; "size"; "key_size"] = Ok 2048.
Proof. reflexivity. Qed.

Example extract_key_keyword_32_bytes :
  _extract_key_size
    (Some (Trees.argument_list [Trees.kw_string "key" key32_literal 0] 0))
    ["key"; "bits"; "key_size"] = Ok 256.
Proof. reflexivity. Qed.

Example scan_exponent_only :
  scan_file (fun _ => Some "k = RSA.generate(65537)") id
    (new_scanner (fun _ => Trees.rsa_generate [Trees.integer "65537" 0]) TARGETS) "a.py"
  = Ok [exponent_only_finding].
Proof. vm_compute. reflexivity. Qed.

Lemma no_key_size_passed_over (keys : list string) (c : Node) :
  no_key_size keys c -> passed_over keys c.
Proof.
  intros [Hint Hkw]. unfold passed_over.
  destruct (decide (type c = "integer")) as [Hi|Hi].
  - destruct (Hint Hi) as (v & Hv & Hrule).
    rewrite (extract_step_integer keys c v Hi Hv).
    destruct (Z.leb_spec 128 v), (Z.eqb_spec v 65537); simpl; try done.
    exfalso. apply Hrule. lia.
  - destruct (decide (type c = "keyword_argument")) as [Hk|Hk];
      [|by apply extract_step_other].
    unfold extract_step.
    rewrite bool_decide_eq_false_2, bool_decide_eq_true_2 by done.
    destruct (child_by_field_name c "name") as [n|] eqn:Hn; [|done].
    destruct (child_by_field_name c "value") as [v|] eqn:Hv; [|done].
    case_bool_decide as Hin; [|done].
    specialize (Hkw Hk n v eq_refl eq_refl Hin).
    rewrite bool_decide_eq_false_2.
    + rewrite bool_decide_eq_false_2; [done|].
      intros Hs. apply Hkw. by apply list_elem_of_further.
    + intros E. apply Hkw. rewrite E. apply list_elem_of_here.
Qed.

(** A positional string or bytes literal is such an argument: its node type
    is neither [integer] nor [keyword_argument]. *)
Lemma positional_literal_no_key_size (keys : list string) (c : Node) :
  type c ∈ ["string"; "binary_string"] -> no_key_size keys c.
Proof.
  intros H. split; intros E; rewrite E in H;
    repeat (apply elem_of_cons in H as [H|H]); try discriminate;
    by apply not_elem_of_nil in H.
Qed.

(** When every argument is passed over for one of these reasons, in an
    argument list of ASCII text with no node of more than 4300 characters,
    the extraction returns 0; positional string and bytes literals are among
    them, so [AES.new(b'...', MODE)] has key size 0. *)
Lemma extract_key_size_no_contribution (keys : list string) (args : Node) :
  Forall (fun n => ascii_short n = true) (nodes args) ->
  Forall (no_key_size keys) (children args) ->
  _extract_key_size (Some args) keys = Ok 0.
Proof.
  intros _ H. simpl. apply extract_loop_all_passed.
  eapply Forall_impl; [exact H|]. apply no_key_size_passed_over.
Qed.

Example extract_positional_key_literal :
  _extract_key_size
    (Some (Trees.argument_list
             [Trees.str_literal None "b'Sixteen byte key'" 0;
              Trees.identifier None "MODE" 0] 0))
    ["key"; "bits"; "key_size"] = Ok 0.
Proof. reflexivity. Qed.

(** C10: the extraction does not return 0 for every call without a
    qualifying positional integer and without a recognized keyword argument.
    In [AES.new(b'k', 0x10)] the only integer has the value 16, below 128,
    and there is no keyword argument, so the key size is to be 0; the
    extraction calls [int] on the text [0x10] and raises [ValueError]
    instead. *)
Theorem small_hex_literal_raises :
  _extract_key_size
    (Some (Trees.argument_list
             [Trees.str_literal None "b'k'" 0; Trees.integer "0x10" 0] 0))
    ["key"; "bits"; "key_size"]
  = Raise (ValueError "invalid literal for int() with base 10: '0x10'").
Proof. reflexivity. Qed.

(** ** The tree walk and the per-file driver *)

Lemma _find_calls_eq (self : PQCScanner) (node : Node) (results : list Finding) :
  _find_calls self node results =
    found ← match_call self node;
    each_child self (children node)
      (match found with
       | Some finding => (results ++ [finding])%list
       | None => results
       end).
Proof.
  destruct node as [f ty tx r cs]. simpl.
  destruct (match_call self _) as [found|e]; [|reflexivity]. simpl.
  generalize (match found with
              | Some finding => (results ++ [finding])%list
              | None => results
              end).
  induction cs as [|c cs IH]; intros rs; [reflexivity|].
  simpl. destruct (_find_calls self c rs); simpl; [apply IH | reflexivity].
Qed.

Lemma match_call_bits (self : PQCScanner) (node : Node) (f : Finding) :
  match_call self node = Ok (Some f) -> bits_wellformed f.
Proof.
  unfold match_call. intros H.
  repeat case_match; try discriminate.
  destruct (_extract_key_size _ _) as [key_size|e]; [|discriminate].
  simpl in H. injection H as <-. unfold bits_wellformed. simpl.
  destruct (Z.eqb_spec key_size 0) as [->|Hne].
  - split; [by left | intros _; reflexivity].
  - split; [right; eauto | discriminate].
Qed.

Section Walk.
Variable self : PQCScanner.
Variable P : Finding -> Prop.
Hypothesis P_match : forall node f, match_call self node = Ok (Some f) -> P f.

Lemma each_child_Forall (cs : list Node) :
  Forall (fun c => forall results rs, Forall P results ->
                     _find_calls self c results = Ok rs -> Forall P rs) cs ->
  forall results rs, Forall P results ->
    each_child self cs results = Ok rs -> Forall P rs.
Proof.
  induction 1 as [|c cs Hc _ IH]; intros results rs Hres; simpl.
  - by intros [= <-].
  - destruct (_find_calls self c results) as [rs'|e] eqn:E; [|discriminate].
    simpl. apply IH. by eapply Hc.
Qed.

Lemma _find_calls_Forall (node : Node) :
  forall results rs, Forall P results ->
    _find_calls self node results = Ok rs -> Forall P rs.
Proof.
  induction node as [f ty tx r cs IH] using Node_ind.
  intros results rs Hres. rewrite _find_calls_eq.
  destruct (match_call self _) as [found|e] eqn:E; [|discriminate]. simpl.
  apply each_child_Forall; [exact IH|].
  destruct found as [finding|]; [|done].
  apply Forall_app. split; [done|].
  apply Forall_cons. split; [by eapply P_match | apply Forall_nil; exact I].
Qed.
End Walk.

(** C9: every finding of [scan_file] has as [bits] either a nonzero integer
    or ["Unknown"], never the integer 0, and ["Unknown"] bits come with the
    UNKNOWN risk. *)
Theorem scan_file_bits_invariant
    (read_file : string -> option string) (normpath : string -> string)
    (self : PQCScanner) (filepath : string) (findings : list Finding) (f : Finding) :
  scan_file read_file normpath self filepath = Ok findings ->
  f ∈ findings ->
  (bits f = BitsUnknown \/ exists n, bits f = BitsInt n /\ n <> 0) /\
  (bits f = BitsUnknown -> risk f = UNKNOWN).
Proof.
  unfold scan_file. intros Hscan Hin.
  destruct (read_file filepath) as [src|].
  - destruct (_find_calls self (parser self src) []) as [rs|e] eqn:E; [|discriminate].
    simpl in Hscan. injection Hscan as <-.
    apply list_elem_of_In, in_map_iff in Hin as (f0 & <- & Hin0).
    apply list_elem_of_In in Hin0.
    assert (HF : Forall bits_wellformed rs).
    { eapply (_find_calls_Forall self bits_wellformed); [|apply Forall_nil; exact I|exact E].
      intros node g. apply match_call_bits. }
    rewrite Forall_forall in HF. exact (HF f0 Hin0).
  - injection Hscan as <-. by apply elem_of_nil in Hin.
Qed.

(** The converse fails: AES with a size outside 128, 192, 256 has numeric
    bits and risk UNKNOWN. *)
Example numeric_bits_unknown_risk :
  match_call (new_scanner (fun _ => Trees.module []) TARGETS)
    (Trees.call None "AES" "new" [Trees.kw_integer "key_size" "512" 0] 0)
  = Ok (Some {| file := ""; line := 1; algo := "AES"; method := "new";
                bits := BitsInt 512; risk := UNKNOWN;
                context := "AES.new(key_size=512)" |}).
Proof. vm_compute. reflexivity. Qed.

Lemma scan_file_bits_invariant_witness :
  (bits exponent_only_finding = BitsUnknown \/
   exists n, bits exponent_only_finding = BitsInt n /\ n <> 0) /\
  (bits exponent_only_finding = BitsUnknown -> risk exponent_only_finding = UNKNOWN).
Proof.
  apply (scan_file_bits_invariant (fun _ => Some "k = RSA.generate(65537)") id
           (new_scanner (fun _ => Trees.rsa_generate [Trees.integer "65537" 0]) TARGETS)
           "a.py" [exponent_only_finding] exponent_only_finding).
  - vm_compute. reflexivity.
  - apply list_elem_of_here.
Defined.

Lemma init_ok (parse : string -> Node) :
  __init__ parse = Ok (new_scanner parse TARGETS).
Proof. reflexivity. Qed.

Lemma scan_file_unreadable
    (read_file : string -> option string) (normpath : string -> string)
    (self : PQCScanner) (filepath : string) :
  read_file filepath = None ->
  scan_file read_file normpath self filepath = Ok [].
Proof. intros H. unfold scan_file. by rewrite H. Qed.

Lemma append_assoc (a b c : string) : (a +:+ b) +:+ c = a +:+ (b +:+ c).
Proof.
  induction a as [|x a IH]; [reflexivity|].
  change (String x ((a +:+ b) +:+ c) = String x (a +:+ (b +:+ c))).
  by rewrite IH.
Qed.

(** C1 as stated fails: with the 32-byte key passed positionally the AES
    finding has no key size, so it is not (256, LOW). *)
Lemma scan_weak_strong_not_256_low :
  ~ claimed_weak_strong
      (scan_file (fun _ => Some "") id
         (new_scanner (fun _ => Trees.weak_strong 0 1 key32_literal) TARGETS)
         "sample.py") 1 2.
Proof.
  intros (f1 & f2 & H & _ & _ & _ & _ & _ & Hbits & _).
  vm_compute in H. injection H as <- <-. discriminate Hbits.
Qed.

(** C1, amended: for the file [weak = RSA.generate(1024)] followed by
    [strong = AES.new(b'...', MODE)], [scan_file] returns exactly two
    findings: RSA, bits 1024, CRITICAL, at the line of the RSA statement, and
    AES, bits ["Unknown"], UNKNOWN, at the line of the AES statement. *)
Theorem scan_file_weak_strong
    (read_file : string -> option string) (normpath : string -> string)
    (parse : string -> Node) (filepath source_code key : string) (r1 r2 : nat) :
  read_file filepath = Some source_code ->
  parse source_code = Trees.weak_strong r1 r2 key ->
  scan_file read_file normpath (new_scanner parse TARGETS) filepath =
    Ok [ {| file := normpath filepath; line := (r1 + 1)%nat;
            algo := "RSA"; method := "generate";
            bits := BitsInt 1024; risk := CRITICAL;
            context := "RSA.generate(1024)" |};
         {| file := normpath filepath; line := (r2 + 1)%nat;
            algo := "AES"; method := "new";
            bits := BitsUnknown; risk := UNKNOWN;
            context := slice_to 100 ("AES.new(" +:+ key +:+ ", MODE)") |} ].
Proof.
  intros Hread Hparse. unfold scan_file. rewrite Hread.
  change (parser (new_scanner parse TARGETS) source_code) with (parse source_code).
  rewrite Hparse.
  replace ("AES.new(" +:+ key +:+ ", MODE)")
    with (text (Trees.call (Some "right") "AES" "new"
                  [Trees.str_literal None key r2; Trees.identifier None "MODE" r2] r2)).
  - vm_compute. reflexivity.
  - exact (f_equal (String.app "AES.new(") (append_assoc key ", MODE" ")")).
Qed.

Lemma scan_file_weak_strong_witness :
  scan_file (fun _ => Some "") id
    (new_scanner (fun _ => Trees.weak_strong 0 1 key32_literal) TARGETS) "sample.py" =
    Ok [ {| file := "sample.py"; line := 1; algo := "RSA"; method := "generate";
            bits := BitsInt 1024; risk := CRITICAL;
            context := "RSA.generate(1024)" |};
         {| file := "sample.py"; line := 2; algo := "AES"; method := "new";
            bits := BitsUnknown; risk := UNKNOWN;
            context := "AES.new(b'32_byte_key_..................32', MODE)" |} ].
Proof.
  apply (scan_file_weak_strong (fun _ => Some "") id
           (fun _ => Trees.weak_strong 0 1 key32_literal) "sample.py" ""
           key32_literal 0 1); reflexivity.
Defined.

(** C4: [scan_file] raises on a file it can read and parse: the integer
    literal [0x800] reaches [int(...)], which raises [ValueError], and
    nothing between there and the caller of [scan_file] handles it. *)
Theorem scan_file_raises_on_hex_literal :
  scan_file (fun _ => Some "k = RSA.generate(0x800)") id
    (new_scanner (fun _ => Trees.rsa_generate [Trees.integer "0x800" 0]) TARGETS)
    "keys.py"
  = Raise (ValueError "invalid literal for int() with base 10: '0x800'").
Proof. vm_compute. reflexivity. Qed.

(** ** The alias index *)

Section AliasIndex.
Variable alias : string.

Lemma insert_aliases_notin (name : string) (l : list string) (m : gmap string string) :
  alias ∉ l ->
  foldl (fun m a => <[a := name]> m) m l !! alias = m !! alias.
Proof.
  revert m. induction l as [|a l IH]; intros m Hnot; [done|].
  apply not_elem_of_cons in Hnot as [Hne Hnot]. simpl.
  rewrite IH by done. by apply lookup_insert_ne.
Qed.

Lemma insert_aliases_in (name : string) (l : list string) (m : gmap string string) :
  alias ∈ l ->
  foldl (fun m a => <[a := name]> m) m l !! alias = Some name.
Proof.
  revert m. induction l as [|a l IH]; intros m Hin; [by apply elem_of_nil in Hin|].
  simpl. destruct (decide (alias ∈ l)) as [Hl|Hl]; [by apply IH|].
  apply elem_of_cons in Hin as [Heq|Hin]; [subst a|done].
  rewrite insert_aliases_notin by done. apply lookup_insert_eq.
Qed.

Lemma add_aliases_notin (m : gmap string string) (e : string * TargetConfig) :
  alias ∉ aliases e.2 -> add_aliases m e !! alias = m !! alias.
Proof. apply insert_aliases_notin. Qed.

Lemma add_aliases_in (m : gmap string string) (e : string * TargetConfig) :
  alias ∈ aliases e.2 -> add_aliases m e !! alias = Some e.1.
Proof. apply insert_aliases_in. Qed.

Lemma fold_add_aliases_notin (targets : Dict TargetConfig) (m : gmap string string) :
  Forall (fun e => alias ∉ aliases e.2) targets ->
  foldl add_aliases m targets !! alias = m !! alias.
Proof.
  intros H. revert m. induction H as [|e l He _ IH]; intros m; [done|].
  simpl. rewrite IH. by apply add_aliases_notin.
Qed.
End AliasIndex.

(** C3 as stated fails: with an alias listed by two entries the scanner is
    built without an error, and the alias resolves to the later entry. *)
Lemma init_duplicate_alias_no_error :
  duplicate_alias clashing_catalog /\
  raises (init_with (fun _ => Trees.module []) clashing_catalog) = false /\
  _resolve_alias (new_scanner (fun _ => Trees.module []) clashing_catalog) "Cipher" = "DES".
Proof.
  split; [|split; [reflexivity | vm_compute; reflexivity]].
  exists 0%nat, 1%nat, clash_aes, clash_des, "Cipher".
  repeat split; try reflexivity; try discriminate; decide_closed.
Qed.

(** C3, amended: initialization returns normally for every catalog, with or
    without duplicate aliases; an alias then resolves to the canonical name
    of the last entry, in catalog order, that lists it, and a name that no
    entry lists resolves to itself. *)
Theorem init_last_alias_wins (parse : string -> Node) (targets : Dict TargetConfig) :
  exists self,
    init_with parse targets = Ok self /\
    (forall pre name config post alias,
       targets = (pre ++ (name, config) :: post)%list ->
       alias ∈ aliases config ->
       Forall (fun e => alias ∉ aliases e.2) post ->
       _resolve_alias self alias = name) /\
    (forall alias,
       Forall (fun e => alias ∉ aliases e.2) targets ->
       _resolve_alias self alias = alias).
Proof.
  exists (new_scanner parse targets). split; [reflexivity|]. split.
  - intros pre name config post alias -> Hin Hpost.
    unfold _resolve_alias, new_scanner, build_alias_map. simpl.
    rewrite foldl_app. simpl.
    rewrite fold_add_aliases_notin by done.
    by rewrite (add_aliases_in alias _ (name, config)).
  - intros alias Hnone.
    unfold _resolve_alias, new_scanner, build_alias_map. simpl.
    by rewrite fold_add_aliases_notin, lookup_empty.
Qed.

Lemma init_last_alias_wins_witness :
  exists self,
    init_with (fun _ => Trees.module []) clashing_catalog = Ok self /\
    _resolve_alias self "Cipher" = "DES" /\
    _resolve_alias self "Fernet" = "Fernet".
Proof.
  destruct (init_last_alias_wins (fun _ => Trees.module []) clashing_catalog)
    as (self & Hinit & Hlast & Hnone).
  exists self. split; [exact Hinit|]. split.
  - apply (Hlast [clash_aes] clash_des.1 clash_des.2 []).
    + reflexivity.
    + decide_closed.
    + apply Forall_nil. exact I.
  - apply Hnone. decide_closed.
Defined.

(** ** The asset inventory *)

Lemma foldl_snoc_map {A B} (g : A -> B) (l : list A) (acc : list B) :
  foldl (fun acc x => (acc ++ [g x])%list) acc l = (acc ++ (g <$> l))%list.
Proof.
  revert acc. induction l as [|x l IH]; intros acc; simpl.
  - by rewrite app_nil_r.
  - rewrite IH. by rewrite <- app_assoc.
Qed.

Lemma cryptoAssets_fmap (findings : list Finding) :
  cryptoAssets (generate_cbom findings) = asset_of <$> findings.
Proof. unfold generate_cbom. simpl. exact (foldl_snoc_map asset_of findings []). Qed.

Lemma pretty_N_go_ne_Unknown (x : N) (s : string) :
  s <> "Unknown" -> pretty_N_go x s <> "Unknown".
Proof.
  revert s. induction (N.lt_wf_0 x) as [x _ IH]; intros s Hs.
  assert (x = 0 \/ 0 < x)%N as [->|Hpos] by lia.
  - by rewrite pretty_N_go_0.
  - rewrite pretty_N_go_step by done. apply IH.
    + by apply N.div_lt.
    + unfold pretty_N_char. by repeat case_match.
Qed.

Lemma str_int_ne_Unknown (n : Z) : str_int n <> "Unknown".
Proof.
  unfold str_int, pretty, pretty_Z. destruct n as [|p|p]; [done| |done].
  unfold pretty, pretty_positive, pretty, pretty_N.
  case_decide; [done|]. by apply pretty_N_go_ne_Unknown.
Qed.

Lemma str_bits_inj (b1 b2 : Bits) : str_bits b1 = str_bits b2 -> b1 = b2.
Proof.
  destruct b1 as [n1|], b2 as [n2|]; simpl; intros H.
  - f_equal. by apply (inj pretty).
  - by apply str_int_ne_Unknown in H.
  - symmetry in H. by apply str_int_ne_Unknown in H.
  - done.
Qed.

Lemma risk_name_inj (r1 r2 : RiskTier) : risk_name r1 = risk_name r2 -> r1 = r2.
Proof. by destruct r1, r2. Qed.

Lemma asset_of_inj (f1 f2 : Finding) : asset_of f1 = asset_of f2 -> f1 = f2.
Proof.
  destruct f1, f2. unfold asset_of. simpl. intros H.
  injection H as -> -> -> -> Hb -> Hr.
  apply str_bits_inj in Hb as ->. by apply risk_name_inj in Hr as ->.
Qed.

(** C2 as stated fails: two findings of the same algorithm give two asset
    records named RSA, not one record with two occurrences. *)
Lemma generate_cbom_not_grouped :
  ~ grouped_by_algorithm two_rsa_findings
      (cryptoAssets (generate_cbom two_rsa_findings)).
Proof.
  intros H. destruct (H "RSA") as (asset & Hone & _).
  - decide_closed.
  - vm_compute in Hone. discriminate Hone.
Qed.

(** C2, amended: the export has one asset record per finding, in the order
    of the findings; the record of a finding carries its algorithm as name,
    exactly one occurrence (file, line, context) and the key size as a
    string, the method and the risk as properties; and the finding list can
    be recovered from the records: different finding lists give different
    exports. *)
Theorem generate_cbom_one_asset_per_finding (findings : list Finding) :
  List.length (cryptoAssets (generate_cbom findings)) = List.length findings /\
  (forall (i : nat) f, findings !! i = Some f ->
     cryptoAssets (generate_cbom findings) !! i =
       Some {| asset_type := "algorithm";
               asset_name := algo f;
               occurrences := [ {| location := file f; occ_line := line f;
                                   occ_context := context f |} ];
               properties :=
                 [ {| prop_name := "keySize"; prop_value := str_bits (bits f) |};
                   {| prop_name := "method"; prop_value := method f |};
                   {| prop_name := "quantumRisk"; prop_value := risk_name (risk f) |} ] |}) /\
  (forall findings',
     cryptoAssets (generate_cbom findings) = cryptoAssets (generate_cbom findings') ->
     findings = findings').
Proof.
  rewrite cryptoAssets_fmap. split; [|split].
  - apply length_fmap.
  - intros i f Hf. rewrite list_lookup_fmap, Hf. reflexivity.
  - intros findings'. rewrite cryptoAssets_fmap.
    apply (list_fmap_eq_inj asset_of asset_of_inj).
Qed.

Lemma generate_cbom_one_asset_per_finding_witness :
  List.length (cryptoAssets (generate_cbom two_rsa_findings)) = 2%nat /\
  (asset_name <$> cryptoAssets (generate_cbom two_rsa_findings) !! 1%nat) = Some "RSA".
Proof.
  destruct (generate_cbom_one_asset_per_finding two_rsa_findings) as (Hlen & Hrec & _).
  split; [exact Hlen|].
  by rewrite (Hrec 1%nat rsa_2048_finding eq_refl).
Defined.

(** * Further properties of the scanner *)

(** ** The walk in encounter order *)

Lemma nodes_eq (n : Node) : nodes n = n :: nodes_of (children n).
Proof.
  by destruct n.
Qed.

Lemma collect_app (self : PQCScanner) (ns1 ns2 : list Node) :
  collect self (ns1 ++ ns2) =
    found1 ← collect self ns1; found2 ← collect self ns2; Ok (found1 ++ found2)%list.
Proof.
  induction ns1 as [|n ns1 IH]; simpl.
  - by destruct (collect self ns2).
  - destruct (match_call self n) as [found|e]; [|reflexivity]. simpl.
    rewrite IH. destruct (collect self ns1) as [r1|e]; [|reflexivity]. simpl.
    destruct (collect self ns2) as [r2|e]; [|reflexivity]. simpl.
    by destruct found.
Qed.

Lemma each_child_collect (self : PQCScanner) (cs : list Node) :
  Forall (fun c => forall results,
            _find_calls self c results =
              found ← collect self (nodes c); Ok (results ++ found)%list) cs ->
  forall results,
    each_child self cs results =
      found ← collect self (nodes_of cs); Ok (results ++ found)%list.
Proof.
  induction 1 as [|c cs Hc _ IH]; intros results; simpl.
  - by rewrite app_nil_r.
  - rewrite Hc, collect_app.
    destruct (collect self (nodes c)) as [r1|e]; [|reflexivity]. simpl.
    rewrite IH. destruct (collect self (nodes_of cs)) as [r2|e]; [|reflexivity].
    simpl. by rewrite app_assoc.
Qed.

Lemma find_calls_collect (self : PQCScanner) (node : Node) (results : list Finding) :
  _find_calls self node results =
    found ← collect self (nodes node); Ok (results ++ found)%list.
Proof.
  revert results. induction node as [f ty tx r cs IH] using Node_ind.
  intros results. rewrite _find_calls_eq, nodes_eq. simpl.
  destruct (match_call self _) as [found|e]; [|reflexivity]. simpl.
  rewrite each_child_collect by exact IH.
  destruct (collect self (nodes_of cs)) as [rest|e]; [|reflexivity]. simpl.
  destruct found as [finding|]; [|reflexivity].
  by rewrite <- app_assoc.
Qed.

Lemma collect_elem (self : PQCScanner) (ns : list Node) (fs : list Finding) (f : Finding) :
  collect self ns = Ok fs -> f ∈ fs ->
  exists n, n ∈ ns /\ match_call self n = Ok (Some f).
Proof.
  revert fs. induction ns as [|n ns IH]; intros fs; simpl.
  - intros [= <-] Hin. by apply elem_of_nil in Hin.
  - destruct (match_call self n) as [found|e] eqn:E; [|discriminate]. simpl.
    destruct (collect self ns) as [rest|e]; [|discriminate]. simpl.
    intros [= <-] Hin. destruct found as [g|].
    + apply elem_of_cons in Hin as [->|Hin].
      * exists n. split; [apply list_elem_of_here | exact E].
      * destruct (IH rest eq_refl Hin) as (m & Hm & Hcall).
        exists m. split; [by apply list_elem_of_further | exact Hcall].
    + destruct (IH rest eq_refl Hin) as (m & Hm & Hcall).
      exists m. split; [by apply list_elem_of_further | exact Hcall].
Qed.

Lemma collect_raises (self : PQCScanner) (ns : list Node) :
  raises (collect self ns) = true <->
  exists n, n ∈ ns /\ raises (match_call self n) = true.
Proof.
  induction ns as [|n ns IH]; simpl.
  - split; [discriminate | intros (n & Hn & _); by apply elem_of_nil in Hn].
  - destruct (match_call self n) as [found|e] eqn:E; simpl.
    + destruct (collect self ns) as [rest|e]; simpl in *.
      * split; [discriminate|]. intros (m & Hm & Hr).
        apply elem_of_cons in Hm as [->|Hm]; [by rewrite E in Hr|].
        apply IH. eauto.
      * split; [|done]. intros _. destruct IH as [IH _].
        destruct (IH eq_refl) as (m & Hm & Hr).
        exists m. split; [by apply list_elem_of_further | done].
    + split; [|done]. intros _. exists n.
      split; [apply list_elem_of_here | by rewrite E].
Qed.

(** X1: [_find_calls] is append-only and in pre-order.  When the walk
    returns, the findings it was given stay in place, unchanged, in front of
    the new ones and have no influence on them, and the new ones are the
    findings of the call-site test at the nodes of the tree, a node before
    its children and the children from left to right, the test having raised
    at none of them.  When the test raises at some node of the tree, the
    walk raises. *)
Theorem find_calls_preorder (self : PQCScanner) (node : Node) (results : list Finding) :
  (forall out, _find_calls self node results = Ok out ->
     exists found,
       collect self (nodes node) = Ok found /\
       _find_calls self node [] = Ok found /\
       out = (results ++ found)%list) /\
  (forall n, n ∈ nodes node -> raises (match_call self n) = true ->
     raises (_find_calls self node results) = true).
Proof.
  split.
  - intros out Hout. rewrite find_calls_collect in Hout.
    destruct (collect self (nodes node)) as [found|e] eqn:E; [|discriminate].
    simpl in Hout. injection Hout as <-.
    exists found. split; [reflexivity|]. split; [|reflexivity].
    rewrite find_calls_collect, E. reflexivity.
  - intros n Hn Hr. rewrite find_calls_collect.
    assert (raises (collect self (nodes node)) = true) as Hc
      by (apply collect_raises; eauto).
    by destruct (collect self (nodes node)).
Qed.

Lemma find_calls_preorder_witness :
  exists found,
    collect (new_scanner (fun _ => Trees.module []) TARGETS)
      (nodes (Trees.module
                [ Trees.assignment "k"
                    (Trees.call (Some "right") "RSA" "generate"
                       [Trees.integer "2048" 27] 27) 27 ])) = Ok found /\
    _find_calls (new_scanner (fun _ => Trees.module []) TARGETS)
      (Trees.module
         [ Trees.assignment "k"
             (Trees.call (Some "right") "RSA" "generate"
                [Trees.integer "2048" 27] 27) 27 ]) [] = Ok found /\
    [rsa_1024_finding; set_file "" rsa_2048_finding] =
      ([rsa_1024_finding] ++ found)%list.
Proof.
  destruct (find_calls_preorder (new_scanner (fun _ => Trees.module []) TARGETS)
              (Trees.module
                 [ Trees.assignment "k"
                     (Trees.call (Some "right") "RSA" "generate"
                        [Trees.integer "2048" 27] 27) 27 ])
              [rsa_1024_finding])
    as [H _].
  apply (H [rsa_1024_finding; set_file "" rsa_2048_finding]).
  vm_compute. reflexivity.
Defined.

Lemma collect_none (self : PQCScanner) (ns : list Node) :
  Forall (fun n => match_call self n = Ok None) ns -> collect self ns = Ok [].
Proof.
  induction 1 as [|n ns Hn _ IH]; simpl; [done|]. by rewrite Hn, IH.
Qed.

Lemma match_call_not_attribute_call (self : PQCScanner) (n : Node) :
  attribute_call n = false -> match_call self n = Ok None.
Proof.
  unfold attribute_call, match_call. intros H.
  case_bool_decide; [|done]. simpl in H.
  destruct (child_by_field_name n "function") as [func|]; [|done].
  by rewrite H.
Qed.

Section ScanFile.
Variable read_file : string -> option string.
Variable normpath : string -> string.
Variable self : PQCScanner.
Variable filepath : string.

Lemma scan_file_collect (source_code : string) :
  read_file filepath = Some source_code ->
  scan_file read_file normpath self filepath =
    found ← collect self (nodes (parser self source_code));
    Ok (List.map (set_file (normpath filepath)) found).
Proof.
  intros Hread. unfold scan_file. rewrite Hread, find_calls_collect.
  by destruct (collect self _).
Qed.

Lemma scan_file_elem (findings : list Finding) (f : Finding) :
  scan_file read_file normpath self filepath = Ok findings ->
  f ∈ findings ->
  exists source_code n f0,
    read_file filepath = Some source_code /\
    n ∈ nodes (parser self source_code) /\
    match_call self n = Ok (Some f0) /\
    f = set_file (normpath filepath) f0.
Proof.
  intros Hscan Hin.
  destruct (read_file filepath) as [src|] eqn:Hread.
  - rewrite (scan_file_collect src Hread) in Hscan.
    destruct (collect self _) as [found|e] eqn:E; [|discriminate].
    simpl in Hscan. injection Hscan as <-.
    apply list_elem_of_In, in_map_iff in Hin as (f0 & <- & Hin0).
    apply list_elem_of_In in Hin0.
    destruct (collect_elem self _ _ _ E Hin0) as (n & Hn & Hcall).
    by exists src, n, f0.
  - unfold scan_file in Hscan. rewrite Hread in Hscan.
    injection Hscan as <-. by apply elem_of_nil in Hin.
Qed.
End ScanFile.

(** X2: source text without a call of the shape [receiver.method(...)] gives
    no finding: when no node of the tree is a [call] node with an [attribute]
    node as its function (string literals, comments, bare calls such as
    [generate(2048)]), the call-site test finds nothing and raises nothing at
    every node, and a [scan_file] that returns returns the empty list. *)
Theorem scan_file_no_attribute_call
    (read_file : string -> option string) (normpath : string -> string)
    (self : PQCScanner) (filepath source_code : string) :
  read_file filepath = Some source_code ->
  Forall (fun n => attribute_call n = false) (nodes (parser self source_code)) ->
  Forall (fun n => match_call self n = Ok None) (nodes (parser self source_code)) /\
  (forall findings,
     scan_file read_file normpath self filepath = Ok findings -> findings = []).
Proof.
  intros Hread Hnone.
  assert (Hall : Forall (fun n => match_call self n = Ok None)
                   (nodes (parser self source_code))).
  { eapply Forall_impl; [exact Hnone|]. intros n. apply match_call_not_attribute_call. }
  split; [exact Hall|].
  intros findings. rewrite (scan_file_collect _ _ _ _ _ Hread).
  rewrite collect_none by exact Hall. simpl. by intros [= <-].
Qed.

Lemma scan_file_no_attribute_call_witness :
  Forall (fun n => match_call (new_scanner (fun _ => text_only_module) TARGETS) n
                   = Ok None) (nodes text_only_module) /\
  (forall findings,
     scan_file (fun _ => Some "") id (new_scanner (fun _ => text_only_module) TARGETS)
       "notes.py" = Ok findings -> findings = []).
Proof.
  apply (scan_file_no_attribute_call (fun _ => Some "") id
           (new_scanner (fun _ => text_only_module) TARGETS) "notes.py" "").
  - reflexivity.
  - decide_closed.
Defined.

(** ** What a finding records *)

Lemma length_substring_le (n : nat) (s : string) :
  (String.length (String.substring 0 n s) <= n)%nat.
Proof.
  revert s. induction n as [|n IH]; intros [|c s]; simpl; try lia.
  specialize (IH s). lia.
Qed.

Lemma match_call_fields (self : PQCScanner) (node : Node) (f : Finding) :
  match_call self node = Ok (Some f) ->
  attribute_call node = true /\
  file f = "" /\
  line f = (start_row node + 1)%nat /\
  context f = slice_to 100 (_get_text node) /\
  (exists config, dict_get (self_TARGETS self) (algo f) = Some config /\
                  method f ∈ methods config) /\
  risk f = _calculate_risk (algo f) (Some (bits_value (bits f))).
Proof.
  unfold match_call, attribute_call. intros H.
  case_bool_decide as Hcall; [|discriminate].
  destruct (child_by_field_name node "function") as [func|]; [|discriminate].
  case_bool_decide as Hattr; [|discriminate].
  destruct (child_by_field_name func "object") as [obj|]; [|discriminate].
  destruct (child_by_field_name func "attribute") as [meth|]; [|discriminate].
  destruct (dict_get _ _) as [config|] eqn:Hcfg; [|discriminate].
  case_bool_decide as Hmeth; [|discriminate].
  destruct (_extract_key_size _ _) as [key_size|e]; [|discriminate].
  simpl in H. injection H as <-. cbn [file line context algo method risk bits].
  repeat split; try done.
  - by exists config.
  - by destruct key_size.
Qed.

(** X3: every finding of [scan_file] carries the normalized path of the
    scanned file, a line number of at least 1 and a context of at most 100
    characters; line and context are those of a [receiver.method(...)] call
    node of the file's tree: the row of the node plus one, and the first 100
    characters of its text. *)
Theorem scan_file_finding_location
    (read_file : string -> option string) (normpath : string -> string)
    (self : PQCScanner) (filepath : string) (findings : list Finding) (f : Finding) :
  scan_file read_file normpath self filepath = Ok findings ->
  f ∈ findings ->
  file f = normpath filepath /\
  (1 <= line f)%nat /\
  (String.length (context f) <= 100)%nat /\
  exists source_code n,
    read_file filepath = Some source_code /\
    n ∈ nodes (parser self source_code) /\
    attribute_call n = true /\
    line f = (start_row n + 1)%nat /\
    context f = slice_to 100 (_get_text n).
Proof.
  intros Hscan Hin.
  destruct (scan_file_elem _ _ _ _ _ _ Hscan Hin) as (src & n & f0 & Hread & Hn & Hcall & ->).
  destruct (match_call_fields _ _ _ Hcall) as (Hshape & _ & Hline & Hctx & _).
  simpl. rewrite Hline, Hctx. repeat split; try lia.
  - apply length_substring_le.
  - by exists src, n.
Qed.

Lemma scan_file_finding_location_witness :
  file exponent_only_finding = "a.py" /\
  (1 <= line exponent_only_finding)%nat /\
  (String.length (context exponent_only_finding) <= 100)%nat.
Proof.
  destruct (scan_file_finding_location (fun _ => Some "k = RSA.generate(65537)") id
              (new_scanner (fun _ => Trees.rsa_generate [Trees.integer "65537" 0]) TARGETS)
              "a.py" [exponent_only_finding] exponent_only_finding)
    as (H1 & H2 & H3 & _).
  - vm_compute. reflexivity.
  - apply list_elem_of_here.
  - by repeat split.
Defined.

(** X4: every finding of [scan_file] names a key of the scanner's catalog as
    its algorithm, and its method is one of the trigger methods of that
    entry. *)
Theorem scan_file_finding_in_catalog
    (read_file : string -> option string) (normpath : string -> string)
    (self : PQCScanner) (filepath : string) (findings : list Finding) (f : Finding) :
  scan_file read_file normpath self filepath = Ok findings ->
  f ∈ findings ->
  exists config,
    dict_get (self_TARGETS self) (algo f) = Some config /\
    method f ∈ methods config.
Proof.
  intros Hscan Hin.
  destruct (scan_file_elem _ _ _ _ _ _ Hscan Hin) as (src & n & f0 & _ & _ & Hcall & ->).
  by destruct (match_call_fields _ _ _ Hcall) as (_ & _ & _ & _ & Hcat & _).
Qed.

Lemma scan_file_finding_in_catalog_witness :
  exists config,
    dict_get TARGETS (algo exponent_only_finding) = Some config /\
    method exponent_only_finding ∈ methods config.
Proof.
  apply (scan_file_finding_in_catalog (fun _ => Some "k = RSA.generate(65537)") id
           (new_scanner (fun _ => Trees.rsa_generate [Trees.integer "65537" 0]) TARGETS)
           "a.py" [exponent_only_finding] exponent_only_finding).
  - vm_compute. reflexivity.
  - apply list_elem_of_here.
Defined.

(** X5: the risk of every finding of [scan_file] is the value of the
    classifier at the finding's own algorithm and key size (0 standing for
    ["Unknown"]); the method, the file and the position do not enter. *)
Theorem scan_file_finding_risk
    (read_file : string -> option string) (normpath : string -> string)
    (self : PQCScanner) (filepath : string) (findings : list Finding) (f : Finding) :
  scan_file read_file normpath self filepath = Ok findings ->
  f ∈ findings ->
  risk f = _calculate_risk (algo f) (Some (bits_value (bits f))).
Proof.
  intros Hscan Hin.
  destruct (scan_file_elem _ _ _ _ _ _ Hscan Hin) as (src & n & f0 & _ & _ & Hcall & ->).
  by destruct (match_call_fields _ _ _ Hcall) as (_ & _ & _ & _ & _ & Hrisk).
Qed.

Lemma scan_file_finding_risk_witness :
  risk exponent_only_finding =
    _calculate_risk (algo exponent_only_finding)
      (Some (bits_value (bits exponent_only_finding))).
Proof.
  apply (scan_file_finding_risk (fun _ => Some "k = RSA.generate(65537)") id
           (new_scanner (fun _ => Trees.rsa_generate [Trees.integer "65537" 0]) TARGETS)
           "a.py" [exponent_only_finding] exponent_only_finding).
  - vm_compute. reflexivity.
  - apply list_elem_of_here.
Defined.

(** ** When a scan raises *)

(** X6: when the file can be read and the call-site test raises at some
    node of its tree, [scan_file] raises: it returns no finding list, so the
    findings of the call sites before the raising one are lost with it. *)
Theorem scan_file_raises_at_call_site
    (read_file : string -> option string) (normpath : string -> string)
    (self : PQCScanner) (filepath source_code : string) (n : Node) :
  read_file filepath = Some source_code ->
  n ∈ nodes (parser self source_code) ->
  raises (match_call self n) = true ->
  raises (scan_file read_file normpath self filepath) = true /\
  (forall findings, scan_file read_file normpath self filepath <> Ok findings).
Proof.
  intros Hread Hn Hr.
  rewrite (scan_file_collect _ _ _ _ source_code Hread).
  assert (raises (collect self (nodes (parser self source_code))) = true) as Hc
    by (apply collect_raises; eauto).
  destruct (collect self _); [discriminate Hc|].
  split; [reflexivity | discriminate].
Qed.

Lemma scan_file_raises_at_call_site_witness :
  raises (scan_file (fun _ => Some "") id
            (new_scanner
               (fun _ => Trees.module
                  [ Trees.assignment "weak"
                      (Trees.call (Some "right") "RSA" "generate"
                         [Trees.integer "1024" 0] 0) 0;
                    Trees.assignment "k"
                      (Trees.call (Some "right") "RSA" "generate"
                         [Trees.integer "0x800" 1] 1) 1 ])
               TARGETS)
            "keys.py") = true /\
  (forall findings,
     scan_file (fun _ => Some "") id
       (new_scanner
          (fun _ => Trees.module
             [ Trees.assignment "weak"
                 (Trees.call (Some "right") "RSA" "generate"
                    [Trees.integer "1024" 0] 0) 0;
               Trees.assignment "k"
                 (Trees.call (Some "right") "RSA" "generate"
                    [Trees.integer "0x800" 1] 1) 1 ])
          TARGETS)
       "keys.py" <> Ok findings).
Proof.
  apply (scan_file_raises_at_call_site (fun _ => Some "") id _ "keys.py" ""
           (Trees.call (Some "right") "RSA" "generate" [Trees.integer "0x800" 1] 1)).
  - reflexivity.
  - apply list_elem_of_In. vm_compute. tauto.
  - reflexivity.
Defined.

(** ** Receivers and aliases *)

(** The call-site test on a node of the shape [obj.meth(args)]. *)
Lemma match_call_on_call (self : PQCScanner) (fld : option string)
    (obj meth : string) (args : list Node) (r : nat) :
  match_call self (Trees.call fld obj meth args r) =
    match dict_get (self_TARGETS self) (_resolve_alias self obj) with
    | Some config =>
        if meth in? methods config then
          key_size ← _extract_key_size (Some (Trees.argument_list args r))
                        (arg_keys config);
          Ok (Some {| file := "";
                      line := (r + 1)%nat;
                      algo := _resolve_alias self obj;
                      method := meth;
                      bits := if key_size =? 0 then BitsUnknown else BitsInt key_size;
                      risk := _calculate_risk (_resolve_alias self obj) (Some key_size);
                      context := slice_to 100 (_get_text (Trees.call fld obj meth args r)) |})
        else Ok None
    | None => Ok None
    end.
Proof. reflexivity. Qed.

(** X8: two receivers that resolve to the same name give the same finding
    except for the context text: for the calls [obj1.meth(args)] and
    [obj2.meth(args)] on the same row the call-site test has the same
    outcome once the context is blanked (the same exception, no finding, or
    findings equal in file, line, algorithm, method, bits and risk). *)
Theorem alias_equivalence (self : PQCScanner) (fld : option string)
    (obj1 obj2 meth : string) (args : list Node) (r : nat) :
  _resolve_alias self obj1 = _resolve_alias self obj2 ->
  outcome_without_context (match_call self (Trees.call fld obj1 meth args r)) =
  outcome_without_context (match_call self (Trees.call fld obj2 meth args r)).
Proof.
  intros Hres. rewrite !match_call_on_call, Hres.
  destruct (dict_get _ _) as [config|]; [|reflexivity].
  case_bool_decide; [|reflexivity].
  by destruct (_extract_key_size _ _).
Qed.

Lemma alias_equivalence_witness :
  outcome_without_context
    (match_call (new_scanner (fun _ => Trees.module []) TARGETS)
       (Trees.call None "PyRSA" "generate" [Trees.integer "1024" 36] 36)) =
  outcome_without_context
    (match_call (new_scanner (fun _ => Trees.module []) TARGETS)
       (Trees.call None "RSA" "generate" [Trees.integer "1024" 36] 36)).
Proof.
  apply (alias_equivalence (new_scanner (fun _ => Trees.module []) TARGETS)
           None "PyRSA" "RSA" "generate" [Trees.integer "1024" 36] 36).
  vm_compute. reflexivity.
Defined.

Lemma build_alias_map_snoc (targets : Dict TargetConfig) (e : string * TargetConfig) :
  build_alias_map (targets ++ [e]) = add_aliases (build_alias_map targets) e.
Proof. unfold build_alias_map. by rewrite foldl_app. Qed.

Lemma alias_map_sound (targets : Dict TargetConfig) (alias canonical : string) :
  build_alias_map targets !! alias = Some canonical ->
  exists (i : nat) config,
    targets !! i = Some (canonical, config) /\ alias ∈ aliases config.
Proof.
  induction targets as [|e targets IH] using rev_ind.
  - unfold build_alias_map. simpl. by rewrite lookup_empty.
  - rewrite build_alias_map_snoc.
    destruct (decide (alias ∈ aliases e.2)) as [Hin|Hnot].
    + rewrite add_aliases_in by done. intros [= <-].
      exists (List.length targets), e.2. split; [|done].
      rewrite lookup_app_r by done. rewrite Nat.sub_diag. by destruct e.
    + rewrite add_aliases_notin by done. intros H.
      destruct (IH H) as (i & config & Hi & Ha).
      exists i, config. split; [|done]. by apply lookup_app_l_Some.
Qed.

Lemma alias_map_complete (targets : Dict TargetConfig) (alias : string)
    (i : nat) (e : string * TargetConfig) :
  targets !! i = Some e -> alias ∈ aliases e.2 ->
  is_Some (build_alias_map targets !! alias).
Proof.
  revert i. induction targets as [|e' targets IH] using rev_ind; intros i Hi Ha.
  - by rewrite lookup_nil in Hi.
  - rewrite build_alias_map_snoc.
    destruct (decide (alias ∈ aliases e'.2)) as [Hin|Hnot].
    + rewrite add_aliases_in by done. eauto.
    + rewrite add_aliases_notin by done.
      apply lookup_app_Some in Hi as [Hi | [_ Hi]]; [by eapply IH|].
      apply list_lookup_singleton_Some in Hi as [_ ->]. done.
Qed.

Lemma dict_get_is_Some {V} (d : Dict V) (k : string) (i : nat) (v : V) :
  d !! i = Some (k, v) -> is_Some (dict_get d k).
Proof.
  revert i. induction d as [|[k' v'] d IH]; intros i Hi; [by rewrite lookup_nil in Hi|].
  simpl. case_bool_decide; [eauto|].
  destruct i as [|i]; simpl in Hi; [congruence | by eapply IH].
Qed.

(** X9: for every catalog, a name that alias resolution changes is changed
    to a key of the catalog; and in a catalog where every entry lists its own
    name among its aliases and no alias is listed under two names, alias
    resolution is idempotent. *)
Theorem resolve_alias_idempotent
    (parse : string -> Node) (targets : Dict TargetConfig) (name : string) :
  (_resolve_alias (new_scanner parse targets) name <> name ->
   is_Some (dict_get targets (_resolve_alias (new_scanner parse targets) name))) /\
  (Forall (fun e => e.1 ∈ aliases e.2) targets ->
   ~ duplicate_alias targets ->
   _resolve_alias (new_scanner parse targets)
     (_resolve_alias (new_scanner parse targets) name)
   = _resolve_alias (new_scanner parse targets) name).
Proof.
  unfold _resolve_alias, new_scanner. simpl.
  destruct (build_alias_map targets !! name) as [c|] eqn:Hname; simpl.
  - destruct (alias_map_sound _ _ _ Hname) as (i & config & Hi & Ha).
    split; [intros _; by eapply dict_get_is_Some|].
    intros Hown Hnodup.
    assert (c ∈ aliases config) as Hc.
    { rewrite Forall_forall in Hown.
      apply (Hown (c, config)). by eapply list_elem_of_lookup_2. }
    destruct (alias_map_complete targets c i (c, config) Hi Hc) as [c' Hc'].
    rewrite Hc'. simpl.
    destruct (decide (c' = c)) as [->|Hne]; [done|].
    destruct (alias_map_sound _ _ _ Hc') as (j & config' & Hj & Ha').
    exfalso. apply Hnodup.
    exists i, j, (c, config), (c', config'), c. simpl. eauto 10.
  - rewrite Hname. simpl. split; [by intros []|done].
Qed.

Lemma shipped_catalog_own_names : Forall (fun e => e.1 ∈ aliases e.2) TARGETS.
Proof. decide_closed. Qed.

Lemma shipped_catalog_no_duplicate_alias : ~ duplicate_alias TARGETS.
Proof.
  intros (i & j & e1 & e2 & a & Hi & Hj & Hne & H1 & H2).
  destruct i as [|[|[|[|[|i]]]]]; simpl in Hi; try discriminate Hi;
    injection Hi as <-.
  all: destruct j as [|[|[|[|[|j]]]]]; simpl in Hj; try discriminate Hj;
    injection Hj as <-.
  all: try (by destruct Hne).
  all: simpl in H1, H2.
  all: repeat (apply elem_of_cons in H1 as [->|H1]);
         [..|by apply elem_of_nil in H1].
  all: by (apply (bool_decide_pack _) in H2; vm_compute in H2).
Qed.

Lemma resolve_alias_idempotent_witness :
  is_Some (dict_get clashing_catalog
             (_resolve_alias (new_scanner (fun _ => Trees.module []) clashing_catalog)
                "Cipher")) /\
  _resolve_alias (new_scanner (fun _ => Trees.module []) TARGETS)
    (_resolve_alias (new_scanner (fun _ => Trees.module []) TARGETS) "Cipher")
  = _resolve_alias (new_scanner (fun _ => Trees.module []) TARGETS) "Cipher".
Proof.
  split.
  - destruct (resolve_alias_idempotent (fun _ => Trees.module []) clashing_catalog
                "Cipher") as [H _].
    apply H. vm_compute. discriminate.
  - destruct (resolve_alias_idempotent (fun _ => Trees.module []) TARGETS "Cipher")
      as [_ H].
    apply H.
    + exact shipped_catalog_own_names.
    + exact shipped_catalog_no_duplicate_alias.
Defined.

(** ** The first argument that gives a size decides *)

(** X25: key-size extraction stops at the first argument, from the left,
    whose iteration is not passed over: if that argument gives a size, the
    size is the result, and if it raises, the extraction raises; the
    arguments after it are not looked at, so a later literal that [int]
    cannot read does no harm and a later keyword argument cannot override an
    earlier positional size. *)
Theorem extract_key_size_first_match
    (keys : list string) (args child : Node) (pre post : list Node) :
  children args = (pre ++ child :: post)%list ->
  Forall (passed_over keys) pre ->
  (forall v, extract_step keys child = Ok (Some v) ->
     _extract_key_size (Some args) keys = Ok v) /\
  (forall e, extract_step keys child = Raise e ->
     _extract_key_size (Some args) keys = Raise e).
Proof.
  intros Hcs Hpre. simpl. rewrite Hcs, extract_loop_passed by done.
  split; intros x Hstep; simpl; by rewrite Hstep.
Qed.

Lemma extract_key_size_first_match_witness :
  _extract_key_size
    (Some (Trees.argument_list
             [Trees.integer "2048" 0; Trees.integer "0x10" 0;
              Trees.kw_integer "bits" "4096" 0] 0))
    ["bits"; "size"; "key_size"] = Ok 2048.
Proof.
  destruct (extract_key_size_first_match ["bits"; "size"; "key_size"]
              (Trees.argument_list
                 [Trees.integer "2048" 0; Trees.integer "0x10" 0;
                  Trees.kw_integer "bits" "4096" 0] 0)
              (Trees.integer "2048" 0) [Trees.token "(" 0]
              [Trees.token "," 0; Trees.integer "0x10" 0; Trees.token "," 0;
               Trees.kw_integer "bits" "4096" 0; Trees.token ")" 0])
    as (H & _).
  - reflexivity.
  - repeat constructor.
  - apply H. reflexivity.
Defined.

(** * Directory scans *)

Section DirectoryScan.
Variable read_file : string -> option string.
Variable normpath : string -> string.
Variable path_join : string -> string -> string.
Variable self : PQCScanner.
Variable extensions : list string.

Abbreviation scan_one := (scan_file read_file normpath self).
Abbreviation walk_from := (walk read_file normpath path_join self extensions).
Abbreviation walk_dirs_from := (walk_dirs read_file normpath path_join self extensions).
Abbreviation scan_all := (scan_paths read_file normpath self).

Lemma walk_eq (root : string) (d : Dir) (all_results : list Finding) :
  walk_from root d all_results =
    all_results ← scan_files read_file normpath path_join self extensions root
                    (dir_files d) all_results;
    walk_dirs_from root (dir_subdirs d) all_results.
Proof.
  destruct d as [n fs ds]. simpl.
  destruct (scan_files _ _ _ _ _ _ _ all_results) as [rs|e]; [|reflexivity]. simpl.
  revert rs. induction ds as [|sub ds IH]; intros rs; [reflexivity|].
  simpl. case_bool_decide; [apply IH|].
  destruct (walk _ _ _ _ _ _ sub rs); simpl; [apply IH | reflexivity].
Qed.

Lemma visited_eq (root : string) (d : Dir) :
  visited path_join extensions root d =
    ((path_join root <$> filter (fun file => endswith_any file extensions = true)
                           (dir_files d))
     ++ visited_dirs path_join extensions root (dir_subdirs d))%list.
Proof.
  destruct d as [n fs ds]. simpl. f_equal.
  induction ds as [|sub ds IH]; [reflexivity|].
  simpl. case_bool_decide; [apply IH | by rewrite IH].
Qed.

Lemma prune_eq (d : Dir) :
  prune d = mkDir (dir_name d) (dir_files d) (prune_dirs (dir_subdirs d)).
Proof.
  destruct d as [n fs ds]. simpl. f_equal.
Qed.

Lemma scan_paths_app (ps1 ps2 : list string) (all_results : list Finding) :
  scan_all (ps1 ++ ps2) all_results =
    all_results ← scan_all ps1 all_results; scan_all ps2 all_results.
Proof.
  revert all_results. induction ps1 as [|p ps1 IH]; intros rs; simpl; [done|].
  destruct (scan_one p) as [r|e]; [|done]. simpl. apply IH.
Qed.

Lemma scan_files_paths (root : string) (files : list string) (all_results : list Finding) :
  scan_files read_file normpath path_join self extensions root files all_results =
    scan_all (path_join root <$>
                filter (fun file => endswith_any file extensions = true) files)
             all_results.
Proof.
  revert all_results. induction files as [|file files IH]; intros rs; simpl; [done|].
  rewrite filter_cons. destruct (endswith_any file extensions) eqn:E.
  - rewrite decide_True by done. simpl.
    destruct (scan_one _) as [r|e]; [|done]. simpl. apply IH.
  - rewrite decide_False by done. apply IH.
Qed.

Lemma walk_dirs_paths (root : string) (ds : list Dir) :
  Forall (fun d => forall root all_results,
            walk_from root d all_results =
              scan_all (visited path_join extensions root d) all_results) ds ->
  forall all_results,
    walk_dirs_from root ds all_results =
      scan_all (visited_dirs path_join extensions root ds) all_results.
Proof.
  induction 1 as [|sub ds Hsub _ IH]; intros rs; simpl; [done|].
  case_bool_decide; [apply IH|].
  rewrite scan_paths_app, Hsub.
  destruct (scan_all _ rs) as [rs'|e]; [|done]. simpl. apply IH.
Qed.

Lemma walk_paths (root : string) (d : Dir) (all_results : list Finding) :
  walk_from root d all_results =
    scan_all (visited path_join extensions root d) all_results.
Proof.
  revert root all_results. induction d as [n fs ds IH] using Dir_ind.
  intros root rs. rewrite walk_eq, visited_eq, scan_paths_app, scan_files_paths.
  simpl. destruct (scan_all _ rs) as [rs'|e]; [|done]. simpl.
  by apply walk_dirs_paths.
Qed.

Lemma scan_paths_Ok (ps : list string) (all_results out : list Finding) :
  scan_all ps all_results = Ok out <->
  exists rss, Forall2 (fun p r => scan_one p = Ok r) ps rss /\
              out = (all_results ++ List.concat rss)%list.
Proof.
  revert all_results. induction ps as [|p ps IH]; intros rs; simpl.
  - split.
    + intros [= <-]. exists []. split; [constructor | by rewrite app_nil_r].
    + intros (rss & H & ->). apply Forall2_nil_inv_l in H as ->.
      simpl. by rewrite app_nil_r.
  - destruct (scan_one p) as [r|e] eqn:E; simpl.
    + rewrite IH. split.
      * intros (rss & H & ->). exists (r :: rss). split; [by constructor|].
        simpl. by rewrite app_assoc.
      * intros (rss & H & ->).
        apply Forall2_cons_inv_l in H as (r' & rss' & Hr & H & ->).
        assert (r' = r) as -> by congruence.
        exists rss'. split; [done|]. simpl. by rewrite app_assoc.
    + split; [discriminate|]. intros (rss & H & _).
      apply Forall2_cons_inv_l in H as (r' & rss' & Hr & _). congruence.
Qed.

Lemma scan_paths_raises (ps : list string) (all_results : list Finding) :
  raises (scan_all ps all_results) = true <->
  exists p, p ∈ ps /\ raises (scan_one p) = true.
Proof.
  revert all_results. induction ps as [|p ps IH]; intros rs; simpl.
  - split; [discriminate | intros (p & Hp & _); by apply elem_of_nil in Hp].
  - destruct (scan_one p) as [r|e] eqn:E; simpl.
    + rewrite IH. split.
      * intros (q & Hq & Hr). exists q. split; [by apply list_elem_of_further | done].
      * intros (q & Hq & Hr). apply elem_of_cons in Hq as [->|Hq]; [|eauto].
        by rewrite E in Hr.
    + split; [|done]. intros _. exists p.
      split; [apply list_elem_of_here | by rewrite E].
Qed.

Lemma dir_name_prune (d : Dir) : dir_name (prune d) = dir_name d.
Proof. by destruct d. Qed.

Lemma walk_dirs_prune (root : string) (ds : list Dir) :
  Forall (fun d => forall root all_results,
            walk_from root (prune d) all_results = walk_from root d all_results) ds ->
  forall all_results,
    walk_dirs_from root (prune_dirs ds) all_results =
      walk_dirs_from root ds all_results.
Proof.
  induction 1 as [|sub ds Hsub _ IH]; intros rs; simpl; [done|].
  case_bool_decide as Hskip; [apply IH|]. simpl.
  rewrite dir_name_prune, bool_decide_eq_false_2 by done. rewrite Hsub.
  destruct (walk_from _ sub rs) as [rs'|e]; [|done]. simpl. apply IH.
Qed.

Lemma walk_prune (root : string) (d : Dir) (all_results : list Finding) :
  walk_from root (prune d) all_results = walk_from root d all_results.
Proof.
  revert root all_results. induction d as [n fs ds IH] using Dir_ind.
  intros root rs. rewrite prune_eq, !walk_eq. simpl.
  destruct (scan_files _ _ _ _ _ _ _ rs) as [rs'|e]; [|done]. simpl.
  by apply walk_dirs_prune.
Qed.
End DirectoryScan.

(** X10: a directory scan never looks below a subdirectory named
    [__pycache__], [.git], [node_modules], [venv], [.venv] or [env], at any
    depth: the scan of a tree and the scan of the tree with all such
    subdirectories removed have the same outcome, whatever the removed
    directories hold.  The name of the scanned root itself is not tested. *)
Theorem scan_directory_skip_list
    (read_file : string -> option string) (normpath : string -> string)
    (path_join : string -> string -> string) (directory_at : string -> option Dir)
    (self : PQCScanner) (dirpath : string) (extensions : list string) :
  scan_directory read_file normpath path_join (fun p => prune <$> directory_at p)
    self dirpath extensions
  = scan_directory read_file normpath path_join directory_at self dirpath extensions.
Proof.
  unfold scan_directory. destruct (directory_at dirpath) as [d|]; simpl; [|done].
  apply walk_prune.
Qed.

(** X11: a directory scan returns normally exactly when [scan_file] does on
    every visited path, and then its result is the concatenation of the
    per-file results in visiting order: the matching files of a directory in
    listing order first, then its subdirectories one after the other. *)
Theorem scan_directory_concat
    (read_file : string -> option string) (normpath : string -> string)
    (path_join : string -> string -> string) (directory_at : string -> option Dir)
    (self : PQCScanner) (dirpath : string) (extensions : list string)
    (d : Dir) (findings : list Finding) :
  directory_at dirpath = Some d ->
  (scan_directory read_file normpath path_join directory_at self dirpath extensions
     = Ok findings) <->
  (exists per_file,
     Forall2 (fun p r => scan_file read_file normpath self p = Ok r)
       (visited path_join extensions dirpath d) per_file /\
     findings = List.concat per_file).
Proof.
  intros Hd. unfold scan_directory. rewrite Hd, walk_paths.
  apply scan_paths_Ok.
Qed.

Lemma scan_directory_concat_witness :
  scan_directory (fun _ => Some "k = RSA.generate(65537)") id slash_join
    (fun _ => Some sample_project)
    (new_scanner (fun _ => Trees.rsa_generate [Trees.integer "65537" 0]) TARGETS)
    "proj" [".py"]
  = Ok [ set_file "proj/app.py" exponent_only_finding;
         set_file "proj/src/keys.py" exponent_only_finding ].
Proof.
  apply (scan_directory_concat (fun _ => Some "k = RSA.generate(65537)") id slash_join
           (fun _ => Some sample_project)
           (new_scanner (fun _ => Trees.rsa_generate [Trees.integer "65537" 0]) TARGETS)
           "proj" [".py"] sample_project).
  - reflexivity.
  - exists [ [set_file "proj/app.py" exponent_only_finding];
             [set_file "proj/src/keys.py" exponent_only_finding] ].
    split; [|reflexivity].
    repeat constructor.
Defined.

(** X12: a directory scan raises exactly when [scan_file] raises on one of
    the visited files; the findings of all other files are then lost. *)
Theorem scan_directory_raises_iff
    (read_file : string -> option string) (normpath : string -> string)
    (path_join : string -> string -> string) (directory_at : string -> option Dir)
    (self : PQCScanner) (dirpath : string) (extensions : list string) :
  raises (scan_directory read_file normpath path_join directory_at self dirpath
            extensions) = true <->
  exists d p,
    directory_at dirpath = Some d /\
    p ∈ visited path_join extensions dirpath d /\
    raises (scan_file read_file normpath self p) = true.
Proof.
  unfold scan_directory. destruct (directory_at dirpath) as [d|] eqn:Hd.
  - rewrite walk_paths, scan_paths_raises. split.
    + intros (p & Hp & Hr). by exists d, p.
    + intros (d' & p & [= <-] & Hp & Hr). by exists p.
  - simpl. split; [discriminate | by intros (d & p & [=] & _)].
Qed.

Section WalkRoots.
Variable path_join : string -> string -> string.
Variable extensions : list string.

Lemma walk_roots_eq (root : string) (d : Dir) :
  walk_roots path_join root d =
    (root, dir_files d) :: walk_roots_dirs path_join root (dir_subdirs d).
Proof.
  destruct d as [n fs ds]. simpl. f_equal.
  induction ds as [|sub ds IH]; [reflexivity|].
  simpl. case_bool_decide; [apply IH | by rewrite IH].
Qed.

Lemma visited_dirs_roots (root : string) (ds : list Dir) (p : string) :
  Forall (fun d => forall root,
            p ∈ visited path_join extensions root d ->
            exists r files file,
              (r, files) ∈ walk_roots path_join root d /\ file ∈ files /\
              endswith_any file extensions = true /\ p = path_join r file) ds ->
  p ∈ visited_dirs path_join extensions root ds ->
  exists r files file,
    (r, files) ∈ walk_roots_dirs path_join root ds /\ file ∈ files /\
    endswith_any file extensions = true /\ p = path_join r file.
Proof.
  induction 1 as [|sub ds Hsub _ IH]; simpl; [intros H; by apply elem_of_nil in H|].
  case_bool_decide as Hskip; [exact IH|].
  rewrite elem_of_app. intros [H|H].
  - destruct (Hsub _ H) as (r & files & file & Hr & Hrest).
    exists r, files, file. split; [|exact Hrest].
    apply elem_of_app. by left.
  - destruct (IH H) as (r & files & file & Hr & Hrest).
    exists r, files, file. split; [|exact Hrest].
    apply elem_of_app. by right.
Qed.

(** A visited path is [os.path.join(root, file)] for a [root] that the walk
    yields and a [file] of its listing that ends in one of the extensions. *)
Lemma visited_roots (root : string) (d : Dir) (p : string) :
  p ∈ visited path_join extensions root d ->
  exists r files file,
    (r, files) ∈ walk_roots path_join root d /\ file ∈ files /\
    endswith_any file extensions = true /\ p = path_join r file.
Proof.
  revert root. induction d as [n fs ds IH] using Dir_ind. intros root.
  rewrite visited_eq, walk_roots_eq, elem_of_app. simpl. intros [H|H].
  - apply list_elem_of_fmap in H as (file & -> & Hf).
    apply list_elem_of_filter in Hf as [Hext Hfile].
    exists root, fs, file. split; [apply list_elem_of_here | done].
  - destruct (visited_dirs_roots root ds p IH H) as (r & files & file & Hr & Hrest).
    exists r, files, file. split; [by apply list_elem_of_further | exact Hrest].
Qed.
End WalkRoots.

(** X13: every finding of a directory scan is a finding of [scan_file] on
    one visited path, and that path is [os.path.join(root, file)] for a
    [root] that [os.walk] yields below the scanned directory, after the
    pruning, and a [file] of the listing of that [root] that ends in one of
    the extensions; so what holds of the findings of every file scan holds of
    the findings of a directory scan. *)
Theorem scan_directory_provenance
    (read_file : string -> option string) (normpath : string -> string)
    (path_join : string -> string -> string) (directory_at : string -> option Dir)
    (self : PQCScanner) (dirpath : string) (extensions : list string)
    (findings : list Finding) (f : Finding) :
  scan_directory read_file normpath path_join directory_at self dirpath extensions
    = Ok findings ->
  f ∈ findings ->
  exists d root files file file_findings,
    directory_at dirpath = Some d /\
    (root, files) ∈ walk_roots path_join dirpath d /\
    file ∈ files /\
    endswith_any file extensions = true /\
    path_join root file ∈ visited path_join extensions dirpath d /\
    scan_file read_file normpath self (path_join root file) = Ok file_findings /\
    f ∈ file_findings.
Proof.
  intros Hscan Hin. unfold scan_directory in Hscan.
  destruct (directory_at dirpath) as [d|] eqn:Hd.
  - rewrite walk_paths in Hscan.
    apply scan_paths_Ok in Hscan as (rss & Hall & ->). simpl in Hin.
    apply list_elem_of_In, in_concat in Hin as (r & Hr & Hf).
    apply list_elem_of_In in Hr, Hf.
    apply list_elem_of_lookup in Hr as (i & Hi).
    destruct (Forall2_lookup_r _ _ _ _ _ Hall Hi) as (p & Hp & Hscan).
    apply list_elem_of_lookup_2 in Hp.
    destruct (visited_roots _ _ _ _ _ Hp) as (root & files & file & Hroot & Hfile & Hext & ->).
    by exists d, root, files, file, r.
  - injection Hscan as <-. by apply elem_of_nil in Hin.
Qed.

Lemma scan_directory_provenance_witness :
  exists d root files file file_findings,
    Some sample_project = Some d /\
    (root, files) ∈ walk_roots slash_join "proj" d /\
    file ∈ files /\
    endswith_any file [".py"] = true /\
    slash_join root file ∈ visited slash_join [".py"] "proj" d /\
    scan_file (fun _ => Some "k = RSA.generate(65537)") id
      (new_scanner (fun _ => Trees.rsa_generate [Trees.integer "65537" 0]) TARGETS)
      (slash_join root file) = Ok file_findings /\
    set_file "proj/src/keys.py" exponent_only_finding ∈ file_findings.
Proof.
  apply (scan_directory_provenance (fun _ => Some "k = RSA.generate(65537)") id
           slash_join (fun _ => Some sample_project)
           (new_scanner (fun _ => Trees.rsa_generate [Trees.integer "65537" 0]) TARGETS)
           "proj" [".py"]
           [ set_file "proj/app.py" exponent_only_finding;
             set_file "proj/src/keys.py" exponent_only_finding ]).
  - vm_compute. reflexivity.
  - apply list_elem_of_further, list_elem_of_here.
Defined.

(** * The asset inventory of a scan *)

Lemma str_int_zero (n : Z) : str_int n = "0" -> n = 0.
Proof. intros H. by apply (inj pretty n 0). Qed.

(** X14: in the asset inventory of the findings of [scan_file] no asset has
    the key size ["0"]: the [keySize] property is ["Unknown"] or the decimal
    numeral of a nonzero integer, and with ["Unknown"] the [quantumRisk]
    property is ["UNKNOWN"]. *)
Theorem scan_file_cbom_key_size
    (read_file : string -> option string) (normpath : string -> string)
    (self : PQCScanner) (filepath : string) (findings : list Finding) (asset : Asset) :
  scan_file read_file normpath self filepath = Ok findings ->
  asset ∈ cryptoAssets (generate_cbom findings) ->
  exists key_size method_name quantum_risk,
    properties asset = [ {| prop_name := "keySize"; prop_value := key_size |};
                         {| prop_name := "method"; prop_value := method_name |};
                         {| prop_name := "quantumRisk"; prop_value := quantum_risk |} ] /\
    key_size <> "0" /\
    (key_size = "Unknown" \/ exists n, n <> 0 /\ key_size = str_int n) /\
    (key_size = "Unknown" -> quantum_risk = "UNKNOWN").
Proof.
  intros Hscan Hin. rewrite cryptoAssets_fmap in Hin.
  apply list_elem_of_fmap in Hin as (f & -> & Hf).
  destruct (scan_file_elem _ _ _ _ _ _ Hscan Hf) as (src & nd & f0 & _ & _ & Hcall & ->).
  destruct (match_call_bits _ _ _ Hcall) as (Hbits & Hrisk).
  change (bits (set_file (normpath filepath) f0)) with (bits f0).
  change (risk (set_file (normpath filepath) f0)) with (risk f0).
  change (method (set_file (normpath filepath) f0)) with (method f0).
  exists (str_bits (bits f0)), (method f0), (risk_name (risk f0)).
  split; [reflexivity|].
  destruct Hbits as [Hu | (n & Hn & Hne)].
  - rewrite Hu. simpl. repeat split; [discriminate | by left |].
    intros _. by rewrite (Hrisk Hu).
  - rewrite Hn. simpl. repeat split.
    + intros H0. by apply str_int_zero in H0.
    + right. eauto.
    + intros HU. by apply str_int_ne_Unknown in HU.
Qed.

Lemma scan_file_cbom_key_size_witness :
  exists key_size method_name quantum_risk,
    properties (asset_of exponent_only_finding) =
      [ {| prop_name := "keySize"; prop_value := key_size |};
        {| prop_name := "method"; prop_value := method_name |};
        {| prop_name := "quantumRisk"; prop_value := quantum_risk |} ] /\
    key_size <> "0" /\
    (key_size = "Unknown" \/ exists n, n <> 0 /\ key_size = str_int n) /\
    (key_size = "Unknown" -> quantum_risk = "UNKNOWN").
Proof.
  apply (scan_file_cbom_key_size (fun _ => Some "k = RSA.generate(65537)") id
           (new_scanner (fun _ => Trees.rsa_generate [Trees.integer "65537" 0]) TARGETS)
           "a.py" [exponent_only_finding]).
  - vm_compute. reflexivity.
  - apply list_elem_of_here.
Defined.

(** * The remediator *)

Module RemediatorFacts.
Import PyLib Remediator.

(** ** Context windows *)

Lemma slice_in_range {A} (l : list A) (i j : nat) :
  (i <= j)%nat -> (j <= List.length l)%nat ->
  slice l (Z.of_nat i) (Z.of_nat j) = take (j - i) (drop i l).
Proof.
  intros Hij Hj. unfold slice, clamp_index.
  destruct (Z.ltb_spec (Z.of_nat i) 0); [lia|].
  destruct (Z.ltb_spec (Z.of_nat j) 0); [lia|].
  rewrite !Z.min_l by lia. rewrite Nat2Z.id.
  f_equal. lia.
Qed.

Lemma slice_past_end {A} (l : list A) (i j : Z) :
  0 <= i -> Z.of_nat (List.length l) <= j ->
  slice l i j = drop (Z.to_nat i) l.
Proof.
  intros Hi Hj. unfold slice, clamp_index.
  destruct (Z.ltb_spec i 0); [lia|].
  destruct (Z.ltb_spec j 0); [lia|].
  rewrite (Z.min_r j) by lia.
  destruct (Z.le_gt_cases i (Z.of_nat (List.length l))).
  - rewrite Z.min_l by lia. apply take_ge. rewrite length_drop. lia.
  - rewrite Z.min_r by lia. rewrite Nat2Z.id, drop_all, take_nil.
    symmetry. apply drop_ge. lia.
Qed.

Section Window.
Variable read_lines : string -> ReadOutcome.
Variable filepath : string.

(** X15: for a line number inside the file, [extract_context] returns the
    target line, the up to [context_lines] lines before it and the up to
    [context_lines] lines after it, each without trailing white space; the
    numbered text [full] lists exactly these lines in order, and
    [start_line], [end_line] are the 1-based numbers of the first and last
    of them. *)
Theorem extract_context_in_range
    (pre post : list string) (line : string) (context_lines : Z) :
  read_lines filepath = Lines (pre ++ line :: post) ->
  0 <= context_lines ->
  let n := Z.of_nat (List.length pre) + 1 in
  let first := (List.length pre - Z.to_nat context_lines)%nat in
  extract_context read_lines filepath n context_lines =
    Returns {| before := rstrip <$> drop first pre;
               target := rstrip line;
               after := rstrip <$> take (Z.to_nat context_lines) post;
               full := join nl
                         (numbered (Z.of_nat first + 1) n
                            (drop first pre ++ line
                               :: take (Z.to_nat context_lines) post));
               start_line := Some (Z.of_nat first + 1);
               end_line := Some (Z.min (Z.of_nat (List.length (pre ++ line :: post)))
                                   (n + context_lines)) |}.
Proof.
  intros Hread Hctx n first. unfold extract_context. rewrite Hread.
  set (lines := (pre ++ line :: post)%list).
  assert (Hlen : List.length lines = (List.length pre + S (List.length post))%nat)
    by (unfold lines; rewrite length_app; reflexivity).
  set (a := List.length pre) in *. set (c := Z.to_nat context_lines).
  replace (n - 1) with (Z.of_nat a) by (unfold n; lia).
  replace (Z.max 0 (Z.of_nat a - context_lines)) with (Z.of_nat first)
    by (unfold first, c; lia).
  set (stop := (a + 1 + Nat.min c (List.length post))%nat).
  replace (Z.min (Z.of_nat (List.length lines)) (Z.of_nat a + context_lines + 1))
    with (Z.of_nat stop) by (unfold stop, c; lia).
  replace (Z.min (Z.of_nat (List.length lines)) (n + context_lines))
    with (Z.of_nat stop) by (unfold stop, c, n; lia).
  destruct (Z.ltb_spec (Z.of_nat a) (Z.of_nat (List.length lines))); [|lia].
  assert (Hget : getitem lines (Z.of_nat a) = Returns line).
  { unfold getitem. destruct (Z.ltb_spec (Z.of_nat a) 0); [lia|].
    destruct (Z.leb_spec 0 (Z.of_nat a)); [|lia].
    destruct (Z.ltb_spec (Z.of_nat a) (Z.of_nat (List.length lines))); [|lia].
    simpl. rewrite Nat2Z.id. unfold lines, a. by rewrite list_lookup_middle. }
  rewrite Hget. simpl.
  assert (Hbefore : slice lines (Z.of_nat first) (Z.of_nat a) = drop first pre).
  { rewrite slice_in_range by (unfold first; lia).
    unfold lines. rewrite drop_app_le by (unfold first, a; lia).
    rewrite take_app_le by (rewrite length_drop; unfold first, a; lia).
    apply take_ge. rewrite length_drop. unfold first, a. lia. }
  assert (Hafter : (if Z.of_nat a + 1 <? Z.of_nat (List.length lines)
                    then slice lines (Z.of_nat a + 1) (Z.of_nat stop) else [])
                   = take c post).
  { destruct (Z.ltb_spec (Z.of_nat a + 1) (Z.of_nat (List.length lines))).
    - replace (Z.of_nat a + 1) with (Z.of_nat (a + 1)) by lia.
      rewrite slice_in_range by (unfold stop; lia).
      unfold lines. rewrite (cons_middle line), app_assoc.
      rewrite drop_app_length' by (rewrite length_app; simpl; unfold a; lia).
      replace (stop - (a + 1))%nat with (Nat.min c (List.length post))
        by (unfold stop; lia).
      rewrite <- take_take. f_equal. by rewrite take_ge.
    - destruct post; [by rewrite take_nil | simpl in Hlen; lia]. }
  assert (Hwindow : slice lines (Z.of_nat first) (Z.of_nat stop)
                    = (drop first pre ++ line :: take c post)%list).
  { rewrite slice_in_range by (unfold first, stop; lia).
    unfold lines. rewrite drop_app_le by (unfold first, a; lia).
    rewrite take_app_ge by (rewrite length_drop; unfold first, stop, a; lia).
    f_equal. rewrite length_drop.
    replace (stop - first - (List.length pre - first))%nat
      with (S (Nat.min c (List.length post))) by (unfold stop, first, a; lia).
    simpl. f_equal. rewrite <- take_take. f_equal. by rewrite take_ge. }
  by rewrite Hbefore, Hafter, Hwindow.
Qed.
End Window.

Lemma extract_context_in_range_witness :
  extract_context (fun _ => Lines ["import os" +:+ nl; "k = RSA.generate(1024)  " +:+ nl;
                                   "print(k)" +:+ nl])
    "keys.py" 2 1
  = Returns {| before := ["import os"];
               target := "k = RSA.generate(1024)";
               after := ["print(k)"];
               full := "   1    import os" +:+ nl +:+
                       "   2 >> k = RSA.generate(1024)" +:+ nl +:+
                       "   3    print(k)";
               start_line := Some 1;
               end_line := Some 3 |}.
Proof.
  apply (extract_context_in_range
           (fun _ => Lines ["import os" +:+ nl; "k = RSA.generate(1024)  " +:+ nl;
                            "print(k)" +:+ nl])
           "keys.py" ["import os" +:+ nl] ["print(k)" +:+ nl]
           ("k = RSA.generate(1024)  " +:+ nl) 1).
  - reflexivity.
  - lia.
Defined.

(** X16: for a line number past the end of the file (and at least 1),
    [extract_context] returns normally with an empty target and no lines
    after; [before] holds the lines of the file from [line_number -
    context_lines] on, if there are any, and [end_line] is the number of
    lines of the file. *)
Theorem extract_context_past_end
    (read_lines : string -> ReadOutcome) (filepath : string)
    (lines : list string) (line_number context_lines : Z) :
  read_lines filepath = Lines lines ->
  Z.of_nat (List.length lines) < line_number ->
  0 <= context_lines ->
  let first := Z.to_nat (line_number - 1 - context_lines) in
  extract_context read_lines filepath line_number context_lines =
    Returns {| before := rstrip <$> drop first lines;
               target := "";
               after := [];
               full := join nl (numbered (Z.of_nat first + 1) line_number
                                  (drop first lines));
               start_line := Some (Z.of_nat first + 1);
               end_line := Some (Z.of_nat (List.length lines)) |}.
Proof.
  intros Hread Hpast Hctx first. unfold extract_context. rewrite Hread.
  destruct (Z.ltb_spec (line_number - 1) (Z.of_nat (List.length lines))); [lia|].
  destruct (Z.ltb_spec (line_number - 1 + 1) (Z.of_nat (List.length lines))); [lia|].
  simpl.
  replace (Z.max 0 (line_number - 1 - context_lines)) with (Z.of_nat first)
    by (unfold first; lia).
  rewrite Z.min_l by lia.
  rewrite !slice_past_end by lia. by rewrite Nat2Z.id.
Qed.

Lemma extract_context_past_end_witness :
  extract_context (fun _ => Lines ["a" +:+ nl; "b" +:+ nl; "c" +:+ nl]) "f.py" 5 2
  = Returns {| before := ["c"]; target := ""; after := [];
               full := "   3    c";
               start_line := Some 3; end_line := Some 3 |}.
Proof.
  apply (extract_context_past_end (fun _ => Lines ["a" +:+ nl; "b" +:+ nl; "c" +:+ nl])
           "f.py" ["a" +:+ nl; "b" +:+ nl; "c" +:+ nl] 5 2).
  - reflexivity.
  - simpl. lia.
  - lia.
Defined.

Lemma getitem_raises {A} (l : list A) (i : Z) (e : exception) :
  getitem l i = Raises e <->
  e = IndexError /\ (i < - Z.of_nat (List.length l) \/ Z.of_nat (List.length l) <= i).
Proof.
  unfold getitem.
  destruct (Z.ltb_spec i 0) as [Hneg|Hpos].
  - destruct (Z.leb_spec 0 (i + Z.of_nat (List.length l))) as [Hlo|Hlo]; simpl.
    + destruct (Z.ltb_spec (i + Z.of_nat (List.length l)) (Z.of_nat (List.length l)));
        [|lia].
      destruct (lookup_lt_is_Some_2 l (Z.to_nat (i + Z.of_nat (List.length l))))
        as [x Hx]; [lia|].
      rewrite Hx. split; [discriminate | intros [_ ?]; lia].
    + split; [intros [= <-]; split; [done | lia] | by intros [-> _]].
  - destruct (Z.leb_spec 0 i); [|lia]. simpl.
    destruct (Z.ltb_spec i (Z.of_nat (List.length l))) as [Hhi|Hhi].
    + destruct (lookup_lt_is_Some_2 l (Z.to_nat i)) as [x Hx]; [lia|].
      rewrite Hx. split; [discriminate | intros [_ ?]; lia].
    + split; [intros [= <-]; split; [done | lia] | by intros [-> _]].
Qed.

(** X17: the only ways [extract_context] raises: [OSError] when reading the
    file fails with an error other than [FileNotFoundError], and
    [IndexError] when the file is read and [line_number] is at most minus
    its number of lines (0 or below for an empty file).  A missing file and
    every line number from 1 on give a normal return. *)
Theorem extract_context_raises_iff
    (read_lines : string -> ReadOutcome) (filepath : string)
    (line_number context_lines : Z) (e : exception) :
  extract_context read_lines filepath line_number context_lines = Raises e <->
  (e = OSError /\ read_lines filepath = OtherReadError) \/
  (e = IndexError /\
   exists lines, read_lines filepath = Lines lines /\
                 line_number <= - Z.of_nat (List.length lines)).
Proof.
  unfold extract_context. destruct (read_lines filepath) as [lines| |] eqn:Hread.
  - destruct (Z.ltb_spec (line_number - 1) (Z.of_nat (List.length lines))) as [Hlt|Hge].
    + destruct (getitem lines (line_number - 1)) as [x|e'] eqn:Hget; simpl.
      * split; [discriminate|].
        intros [[_ [=]] | [-> (lines' & [= <-] & Hle)]].
        assert (getitem lines (line_number - 1) = Raises IndexError) as Hr
          by (apply getitem_raises; split; [done | lia]).
        congruence.
      * apply getitem_raises in Hget as [-> Hrange].
        split.
        -- intros [= <-]. right. split; [done|]. exists lines. split; [done | lia].
        -- intros [[-> [=]] | [-> _]]. done.
    + simpl. split; [discriminate|].
      intros [[_ [=]] | [_ (lines' & [= <-] & Hle)]]. lia.
  - split; [discriminate|]. intros [[_ [=]] | [_ (lines' & [=] & _)]].
  - split.
    + intros [= <-]. by left.
    + intros [[-> _] | [_ (lines' & [=] & _)]]. done.
Qed.

Lemma getitem_last {A} (init : list A) (x : A) :
  getitem (init ++ [x]) (-1) = Returns x.
Proof.
  unfold getitem. change (-1 <? 0) with true. cbv iota.
  rewrite length_app. cbn [List.length].
  destruct (Z.leb_spec 0 (-1 + Z.of_nat (List.length init + 1))); [|lia].
  destruct (Z.ltb_spec (-1 + Z.of_nat (List.length init + 1))
              (Z.of_nat (List.length init + 1))); [|lia].
  cbn [andb].
  replace (Z.to_nat (-1 + Z.of_nat (List.length init + 1))) with (List.length init)
    by lia.
  by rewrite list_lookup_middle.
Qed.

(** X18: line number 0 is not rejected: on a file that is not empty the
    index wraps around, the target is the last line of the file, [before]
    holds all the other lines and [after] the first [context_lines] lines of
    the file. *)
Theorem extract_context_line_zero
    (read_lines : string -> ReadOutcome) (filepath : string)
    (init : list string) (last : string) (context_lines : Z) :
  read_lines filepath = Lines (init ++ [last]) ->
  0 <= context_lines ->
  exists c,
    extract_context read_lines filepath 0 context_lines = Returns c /\
    target c = rstrip last /\
    before c = rstrip <$> init /\
    after c = rstrip <$> take (Z.to_nat context_lines) (init ++ [last]) /\
    start_line c = Some 1.
Proof.
  intros Hread Hctx. unfold extract_context. rewrite Hread.
  change (0 - 1) with (-1). change (-1 + 1) with 0.
  set (lines := (init ++ [last])%list).
  assert (Hlen : Z.of_nat (List.length lines) = Z.of_nat (List.length init) + 1)
    by (unfold lines; rewrite length_app; cbn [List.length]; lia).
  destruct (Z.ltb_spec (-1) (Z.of_nat (List.length lines))); [|lia].
  destruct (Z.ltb_spec 0 (Z.of_nat (List.length lines))); [|lia].
  rewrite (getitem_last init last : getitem lines (-1) = Returns last).
  cbn [mbind outcome_bind].
  eexists. split; [reflexivity|]. cbn [target before after start_line].
  rewrite Z.max_l by lia.
  repeat split.
  - f_equal. unfold slice, clamp_index.
    change (0 <? 0) with false. change (-1 <? 0) with true. cbv iota.
    rewrite Z.max_r by lia. rewrite Z.min_l by lia.
    change (Z.to_nat 0) with 0%nat. rewrite drop_0.
    replace (Z.to_nat (-1 + Z.of_nat (List.length lines) - 0))
      with (List.length init) by lia.
    unfold lines. by rewrite take_app_length.
  - f_equal. unfold slice, clamp_index.
    change (0 <? 0) with false. cbv iota.
    destruct (Z.ltb_spec (Z.min (Z.of_nat (List.length lines))
                            (-1 + context_lines + 1)) 0); [lia|].
    replace (Z.min 0 (Z.of_nat (List.length lines))) with 0 by lia.
    change (Z.to_nat 0) with 0%nat. rewrite drop_0.
    destruct (Z.le_gt_cases (Z.of_nat (List.length lines)) context_lines).
    + rewrite !take_ge by lia. done.
    + f_equal. lia.
Qed.

Lemma extract_context_line_zero_witness :
  exists c,
    extract_context (fun _ => Lines ["a" +:+ nl; "b" +:+ nl; "c" +:+ nl]) "f.py" 0 1
      = Returns c /\
    target c = "c" /\ before c = ["a"; "b"] /\ after c = ["a"] /\
    start_line c = Some 1.
Proof.
  apply (extract_context_line_zero (fun _ => Lines ["a" +:+ nl; "b" +:+ nl; "c" +:+ nl])
           "f.py" ["a" +:+ nl; "b" +:+ nl] ("c" +:+ nl) 1).
  - reflexivity.
  - lia.
Defined.

(** ** The rule engine *)

Ltac covered :=
  first [ left; split; [repeat constructor | split; [reflexivity | eauto]]
        | right; split; [repeat constructor | reflexivity] ].

Lemma rule_lookup_iff (algo method : string) (bits : option Z) :
  is_Some (get_standard_fix algo method bits) <->
  (upper algo ∈ ["RSA"; "DSA"] /\ lower method = "generate" /\
   (bits = Some 1024 \/ bits = Some 2048)) \/
  (upper algo ∈ ["AES"; "DES"; "DES3"] /\ lower method = "new").
Proof.
  unfold get_standard_fix.
  set (U := upper algo). set (L := lower method). clearbody U L.
  split.
  - intros [r Hr]. revert Hr. cbn [rules_get STANDARD_FIXES].
    repeat (case_bool_decide; [by (simplify_eq; try (intros _; covered)) |]).
    discriminate.
  - intros [(HU & -> & Hb) | (HU & ->)].
    + repeat (apply elem_of_cons in HU as [->|HU]);
        [..| by apply elem_of_nil in HU];
        destruct Hb as [-> | ->]; vm_compute; eauto.
    + repeat (apply elem_of_cons in HU as [->|HU]);
        [..| by apply elem_of_nil in HU].
      all: destruct bits; vm_compute; eauto.
Qed.

Lemma ascii_upper_idem (c : ascii) : ascii_upper (ascii_upper c) = ascii_upper c.
Proof. by destruct c as [[] [] [] [] [] [] [] []]. Qed.

Lemma ascii_lower_idem (c : ascii) : ascii_lower (ascii_lower c) = ascii_lower c.
Proof. by destruct c as [[] [] [] [] [] [] [] []]. Qed.

Lemma upper_idem (s : string) : upper (upper s) = upper s.
Proof. induction s as [|c s IH]; [done|]. simpl. by rewrite ascii_upper_idem, IH. Qed.

Lemma lower_idem (s : string) : lower (lower s) = lower s.
Proof. induction s as [|c s IH]; [done|]. simpl. by rewrite ascii_lower_idem, IH. Qed.

(** X19: [get_standard_fix] finds a rule exactly for RSA and DSA [generate]
    with a key size of 1024 or 2048 and for [new] of AES, DES and DES3 with
    any key size or none; every other call, such as RSA with 512 or 4096
    bits, has no rule.  The letter case of the algorithm and of the method
    does not matter: the lookup is the same after upper-casing the one and
    lower-casing the other. *)
Theorem get_standard_fix_is_Some (algo method : string) (bits : option Z) :
  (is_Some (get_standard_fix algo method bits) <->
   (upper algo ∈ ["RSA"; "DSA"] /\ lower method = "generate" /\
    (bits = Some 1024 \/ bits = Some 2048)) \/
   (upper algo ∈ ["AES"; "DES"; "DES3"] /\ lower method = "new")) /\
  get_standard_fix algo method bits = get_standard_fix (upper algo) (lower method) bits.
Proof.
  split; [apply rule_lookup_iff|].
  unfold get_standard_fix. by rewrite upper_idem, lower_idem.
Qed.

Lemma fix_bits_Some (b : Bits) (n : Z) : fix_bits b = Some n <-> b = BitsInt n.
Proof.
  destruct b as [m|]; simpl.
  - split; intros [= ->]; done.
  - split; discriminate.
Qed.

Lemma generate_fix_cases (finding : Finding) (context : Context) :
  (is_Some (get_standard_fix (algo finding) (method finding) (fix_bits (bits finding))) /\
   source (generate_fix finding context) = "RULE_ENGINE" /\
   confidence (generate_fix finding context) = "HIGH") \/
  (get_standard_fix (algo finding) (method finding) (fix_bits (bits finding)) = None /\
   source (generate_fix finding context) = "LLM_SKELETON" /\
   confidence (generate_fix finding context) = "REVIEW_REQUIRED" /\
   reference (generate_fix finding context) = "NIST PQC Standards").
Proof.
  unfold generate_fix.
  destruct (get_standard_fix _ _ _) as [rule|]; [left | right]; eauto.
Qed.

Lemma finding_covered_iff (finding : Finding) :
  is_Some (get_standard_fix (algo finding) (method finding) (fix_bits (bits finding))) <->
  (upper (algo finding) ∈ ["RSA"; "DSA"] /\ lower (method finding) = "generate" /\
   (bits finding = BitsInt 1024 \/ bits finding = BitsInt 2048)) \/
  (upper (algo finding) ∈ ["AES"; "DES"; "DES3"] /\ lower (method finding) = "new").
Proof. rewrite rule_lookup_iff. by rewrite !fix_bits_Some. Qed.

(** X20: [generate_fix] answers from the rule engine, with confidence HIGH,
    exactly when the finding is RSA or DSA [generate] with bits 1024 or 2048
    or [new] of AES, DES or DES3 (a finding with bits ["Unknown"] only in the
    second case); every other finding gets the placeholder text with source
    LLM_SKELETON and confidence REVIEW_REQUIRED.  The context window never
    changes the answer. *)
Theorem generate_fix_source (finding : Finding) (context : Context) :
  let covered :=
    (upper (algo finding) ∈ ["RSA"; "DSA"] /\ lower (method finding) = "generate" /\
     (bits finding = BitsInt 1024 \/ bits finding = BitsInt 2048)) \/
    (upper (algo finding) ∈ ["AES"; "DES"; "DES3"] /\ lower (method finding) = "new") in
  (covered ->
     source (generate_fix finding context) = "RULE_ENGINE" /\
     confidence (generate_fix finding context) = "HIGH") /\
  (~ covered ->
     source (generate_fix finding context) = "LLM_SKELETON" /\
     confidence (generate_fix finding context) = "REVIEW_REQUIRED" /\
     reference (generate_fix finding context) = "NIST PQC Standards") /\
  (forall context', generate_fix finding context' = generate_fix finding context).
Proof.
  intros covered.
  pose proof (finding_covered_iff finding) as Hiff. fold covered in Hiff.
  destruct (generate_fix_cases finding context) as [(Hsome & Hrule) | (Hnone & Hllm)].
  - split; [done|]. split; [|reflexivity].
    intros Hnot. exfalso. by apply Hnot, Hiff.
  - split; [|split; [done | reflexivity]].
    intros Hcov. apply Hiff in Hcov as [r Hr]. congruence.
Qed.

Lemma generate_fix_source_witness :
  source (generate_fix rsa_1024_finding (mkContext [] "" [] "" None None))
    = "RULE_ENGINE" /\
  confidence (generate_fix rsa_1024_finding (mkContext [] "" [] "" None None)) = "HIGH".
Proof.
  destruct (generate_fix_source rsa_1024_finding (mkContext [] "" [] "" None None))
    as (H & _).
  apply H. left. split; [repeat constructor | split; [reflexivity | by left]].
Defined.

(** ** Findings of the scanner in the rule engine *)

Lemma shipped_catalog_names (a m : string) (config : TargetConfig) :
  dict_get TARGETS a = Some config -> m ∈ methods config ->
  a ∈ ["RSA"; "DSA"; "AES"; "EC"; "DES"] /\ upper a = a /\ lower m = m.
Proof.
  cbn [dict_get TARGETS].
  repeat (case_bool_decide; [subst a; intros [= <-]; cbn [methods]; intros Hm|]);
    [..|discriminate].
  all: repeat (apply elem_of_cons in Hm as [->|Hm]); [..|by apply elem_of_nil in Hm].
  all: split; [repeat constructor | split; reflexivity].
Qed.

Lemma rules_get_elem (d : list ((string * string * option Z) * FixRule))
    (key : string * string * option Z) (rule : FixRule) :
  rules_get d key = Some rule -> (key, rule) ∈ d.
Proof.
  induction d as [|[k v] d IH]; simpl; [discriminate|].
  case_bool_decide as Hk.
  - intros [= <-]. subst k. apply list_elem_of_here.
  - intros H. by apply list_elem_of_further, IH.
Qed.

Lemma get_standard_fix_key (algo method : string) (bits : option Z) (rule : FixRule) :
  get_standard_fix algo method bits = Some rule ->
  exists b, ((upper algo, lower method, b), rule) ∈ STANDARD_FIXES.
Proof.
  unfold get_standard_fix.
  destruct (rules_get STANDARD_FIXES (_, _, bits)) as [r|] eqn:E.
  - intros [= <-]. exists bits. by apply rules_get_elem.
  - intros H. exists None. by apply rules_get_elem.
Qed.

(** X21: for the findings the scanner makes with its built-in catalog, the
    fix comes from the rule engine exactly for RSA and DSA [generate] with
    1024 or 2048 bits and for AES and DES [new]; so RSA or DSA with any other
    size (512 included) and every elliptic-curve finding get the placeholder
    text.  The rule written for DES3 is never selected, since the scanner
    reports DES3 and TripleDES receivers under the name DES. *)
Theorem scanned_finding_fix_source
    (read_file : string -> option string) (normpath : string -> string)
    (parse : string -> Node) (filepath : string)
    (findings : list Finding) (f : Finding) (context : Context) :
  scan_file read_file normpath (new_scanner parse TARGETS) filepath = Ok findings ->
  f ∈ findings ->
  (source (generate_fix f context) = "RULE_ENGINE" <->
     (algo f ∈ ["RSA"; "DSA"] /\ method f = "generate" /\
      (bits f = BitsInt 1024 \/ bits f = BitsInt 2048)) \/
     (algo f ∈ ["AES"; "DES"] /\ method f = "new")) /\
  (source (generate_fix f context) = "RULE_ENGINE" \/
   source (generate_fix f context) = "LLM_SKELETON") /\
  get_standard_fix (algo f) (method f) (fix_bits (bits f))
    <> rules_get STANDARD_FIXES ("DES3", "new", None).
Proof.
  intros Hscan Hin.
  destruct (scan_file_elem _ _ _ _ _ _ Hscan Hin) as (src & nd & f0 & _ & _ & Hcall & Hf).
  destruct (match_call_fields _ _ _ Hcall) as (_ & _ & _ & _ & (config & Hcfg & Hm) & _).
  replace (algo f0) with (algo f) in Hcfg by (by rewrite Hf).
  replace (method f0) with (method f) in Hm by (by rewrite Hf).
  clear Hf Hcall.
  destruct (shipped_catalog_names _ _ _ Hcfg Hm) as (Ha & Hup & Hlow).
  pose proof (finding_covered_iff f) as Hiff. rewrite Hup, Hlow in Hiff.
  assert (Hyes : ((algo f ∈ ["RSA"; "DSA"] /\ method f = "generate" /\
                   (bits f = BitsInt 1024 \/ bits f = BitsInt 2048)) \/
                  (algo f ∈ ["AES"; "DES"; "DES3"] /\ method f = "new")) ->
                 source (generate_fix f context) = "RULE_ENGINE").
  { intros Hc. apply Hiff in Hc as [r Hr].
    destruct (generate_fix_cases f context) as [(_ & Hs & _) | (Hnone & _)];
      [done | congruence]. }
  assert (Hno : ~ ((algo f ∈ ["RSA"; "DSA"] /\ method f = "generate" /\
                    (bits f = BitsInt 1024 \/ bits f = BitsInt 2048)) \/
                   (algo f ∈ ["AES"; "DES"; "DES3"] /\ method f = "new")) ->
                source (generate_fix f context) = "LLM_SKELETON").
  { intros Hc.
    destruct (generate_fix_cases f context) as [(Hsome & _) | (_ & Hs & _)];
      [by destruct Hc; apply Hiff | done]. }
  set (covered := (algo f ∈ ["RSA"; "DSA"] /\ method f = "generate" /\
                   (bits f = BitsInt 1024 \/ bits f = BitsInt 2048)) \/
                  (algo f ∈ ["AES"; "DES"; "DES3"] /\ method f = "new")) in *.
  assert (Hdes3 : algo f <> "DES3").
  { intros E. rewrite E in Ha.
    repeat (apply elem_of_cons in Ha as [Ha|Ha]); try discriminate.
    by apply elem_of_nil in Ha. }
  assert (Hdec : covered \/ ~ covered).
  { unfold covered.
    destruct (decide (algo f ∈ ["RSA"; "DSA"])), (decide (method f = "generate")),
      (decide (algo f ∈ ["AES"; "DES"; "DES3"])), (decide (method f = "new")),
      (bits f) as [sz|]; try (destruct (decide (sz = 1024)) as [->|];
                              [|destruct (decide (sz = 2048)) as [->|]]);
      first [ left; left; by eauto | left; right; by eauto
            | right; intros [(? & ? & [? | ?]) | (? & ?)]; congruence ]. }
  split; [|split].
  - split.
    + intros Hsrc. destruct Hdec as [Hc|Hc].
      * destruct Hc as [Hc | (Hal & Hme)]; [by left|]. right. split; [|done].
        repeat (apply elem_of_cons in Hal as [Hal|Hal]);
          [rewrite Hal; repeat constructor | rewrite Hal; repeat constructor
          | done | by apply elem_of_nil in Hal].
      * rewrite (Hno Hc) in Hsrc. discriminate.
    + intros Hp. apply Hyes. destruct Hp as [Hp | (Hal & Hme)]; [by left|].
      right. split; [|done].
      repeat (apply elem_of_cons in Hal as [->|Hal]);
        [repeat constructor | repeat constructor | by apply elem_of_nil in Hal].
  - destruct Hdec as [Hc|Hc]; [left; by apply Hyes | right; by apply Hno].
  - change (rules_get STANDARD_FIXES ("DES3", "new", None))
      with (Some (mkFixRule
                    ("# CRITICAL: Replace 3DES with AES-256-GCM" +:+ nl +:+
                     "from Crypto.Cipher import AES" +:+ nl +:+
                     "cipher = AES.new(key_256, AES.MODE_GCM)")
                    "3DES is deprecated. Replace with AES-256."
                    "NIST SP 800-131A")).
    intros Hrule. apply get_standard_fix_key in Hrule as (b & Hel).
    rewrite Hup in Hel.
    unfold STANDARD_FIXES in Hel.
    repeat (apply elem_of_cons in Hel as [Hel|Hel]); try discriminate Hel.
    + injection Hel as Halgo _ _. by apply Hdes3.
    + by apply elem_of_nil in Hel.
Qed.

Lemma scanned_finding_fix_source_witness :
  source (generate_fix exponent_only_finding (mkContext [] "" [] "" None None))
    = "RULE_ENGINE" \/
  source (generate_fix exponent_only_finding (mkContext [] "" [] "" None None))
    = "LLM_SKELETON".
Proof.
  destruct (scanned_finding_fix_source (fun _ => Some "k = RSA.generate(65537)") id
              (fun _ => Trees.rsa_generate [Trees.integer "65537" 0])
              "a.py" [exponent_only_finding] exponent_only_finding
              (mkContext [] "" [] "" None None)) as (_ & H & _).
  - vm_compute. reflexivity.
  - apply list_elem_of_here.
  - exact H.
Defined.

(** ** The remediation plan *)

Lemma sort_keys_priority (fs : list Finding) :
  Forall (fun f => risk f = CRITICAL \/ risk f = HIGH) fs ->
  sort_keys fs = Returns (sort_key <$> fs).
Proof.
  induction 1 as [|f fs Hf _ IH]; [reflexivity|].
  cbn [sort_keys]. rewrite IH, fmap_cons.
  destruct Hf as [Hr|Hr]; rewrite Hr.
  - replace (sort_key f) with 0 by (unfold sort_key; by rewrite Hr). reflexivity.
  - replace (sort_key f) with 1 by (unfold sort_key; by rewrite Hr). reflexivity.
Qed.

Lemma insert_after_zeros {A} (x : A) (zeros : list A) (rest : list (Z * A)) :
  insert_by_key 1 x ((pair 0 <$> zeros) ++ rest) =
    ((pair 0 <$> zeros) ++ insert_by_key 1 x rest)%list.
Proof.
  induction zeros as [|z zeros IH]; [reflexivity|].
  simpl. f_equal. exact IH.
Qed.

Lemma insert_before_ones {A} (x : A) (ones : list A) :
  insert_by_key 1 x (pair 1 <$> ones) = (1, x) :: (pair 1 <$> ones).
Proof. by destruct ones. Qed.

Lemma insert_zero_front {A} (x : A) (zeros ones : list A) :
  insert_by_key 0 x ((pair 0 <$> zeros) ++ (pair 1 <$> ones)) =
    (0, x) :: ((pair 0 <$> zeros) ++ (pair 1 <$> ones))%list.
Proof. by destruct zeros, ones. Qed.

Lemma stable_sort_priority (fs : list Finding) :
  stable_sort (zip (sort_key <$> filter (fun f => risk_name (risk f) ∈ PRIORITY_RISKS) fs)
                   (filter (fun f => risk_name (risk f) ∈ PRIORITY_RISKS) fs)) =
    ((pair 0 <$> filter (fun f => risk f = CRITICAL) fs)
     ++ (pair 1 <$> filter (fun f => risk f = HIGH) fs))%list.
Proof.
  induction fs as [|f fs IH]; [reflexivity|].
  rewrite !filter_cons.
  assert (Hkey : sort_key f = match risk f with CRITICAL => 0 | _ => 1 end)
    by reflexivity.
  destruct (risk f) eqn:Hr; simpl risk_name.
  - rewrite decide_True by repeat constructor.
    rewrite decide_True by done. rewrite decide_False by done.
    rewrite fmap_cons. cbn [zip zip_with stable_sort]. rewrite Hkey.
    fold (zip (sort_key <$> filter (fun f => risk_name (risk f) ∈ PRIORITY_RISKS) fs)
              (filter (fun f => risk_name (risk f) ∈ PRIORITY_RISKS) fs)).
    rewrite IH. apply insert_zero_front.
  - rewrite decide_True by repeat constructor.
    rewrite decide_False by done. rewrite decide_True by done.
    rewrite fmap_cons. cbn [zip zip_with stable_sort]. rewrite Hkey.
    fold (zip (sort_key <$> filter (fun f => risk_name (risk f) ∈ PRIORITY_RISKS) fs)
              (filter (fun f => risk_name (risk f) ∈ PRIORITY_RISKS) fs)).
    rewrite IH, insert_after_zeros. f_equal. apply insert_before_ones.
  - rewrite decide_False by (intros H; repeat (apply elem_of_cons in H as [H|H]);
                             try discriminate; by apply elem_of_nil in H).
    rewrite !decide_False by done. apply IH.
  - rewrite decide_False by (intros H; repeat (apply elem_of_cons in H as [H|H]);
                             try discriminate; by apply elem_of_nil in H).
    rewrite !decide_False by done. apply IH.
  - rewrite decide_False by (intros H; repeat (apply elem_of_cons in H as [H|H]);
                             try discriminate; by apply elem_of_nil in H).
    rewrite !decide_False by done. apply IH.
Qed.

Lemma filter_priority_Forall (fs : list Finding) :
  Forall (fun f => risk f = CRITICAL \/ risk f = HIGH)
    (filter (fun f => risk_name (risk f) ∈ PRIORITY_RISKS) fs).
Proof.
  apply Forall_forall. intros f Hf. apply list_elem_of_filter in Hf as [Hf _].
  destruct (risk f); eauto; exfalso;
    repeat (apply elem_of_cons in Hf as [Hf|Hf]); try discriminate;
    by apply elem_of_nil in Hf.
Qed.

Lemma filter_disjoint {A} (P1 P2 : A -> Prop)
    `{!forall x, Decision (P1 x), !forall x, Decision (P2 x)} (l : list A) :
  (forall x, P2 x -> ~ P1 x) -> filter P1 (filter P2 l) = [].
Proof.
  intros Hdis. induction l as [|x l IH]; [reflexivity|].
  rewrite (filter_cons P2). destruct (decide (P2 x)) as [H2|H2]; [|exact IH].
  rewrite filter_cons_False by (by apply Hdis). exact IH.
Qed.

Lemma priority_findings_eq (findings : list Finding) :
  priority_findings findings =
    Returns (filter (fun f => risk f = CRITICAL) findings
             ++ filter (fun f => risk f = HIGH) findings)%list.
Proof.
  unfold priority_findings.
  rewrite sort_keys_priority by apply filter_priority_Forall.
  cbn [mbind outcome_bind]. rewrite stable_sort_priority.
  rewrite fmap_app, <- !list_fmap_compose. f_equal.
  by rewrite !list_fmap_id.
Qed.

(** X22: the list the remediation plan is written from never fails to be
    built, and it is: all CRITICAL findings in their original order, then all
    HIGH findings in their original order; findings of every other risk are
    left out.  In the summary table the total is the sum of the two
    counts. *)
Theorem priority_findings_order (findings : list Finding) :
  priority_findings findings =
    Returns (filter (fun f => risk f = CRITICAL) findings
             ++ filter (fun f => risk f = HIGH) findings)%list /\
  summary_counts (filter (fun f => risk f = CRITICAL) findings
                  ++ filter (fun f => risk f = HIGH) findings)%list =
    (List.length (filter (fun f => risk f = CRITICAL) findings),
     List.length (filter (fun f => risk f = HIGH) findings),
     (List.length (filter (fun f => risk f = CRITICAL) findings)
      + List.length (filter (fun f => risk f = HIGH) findings))%nat).
Proof.
  split; [apply priority_findings_eq|].
  - assert (H1 : filter (fun f => risk_name (risk f) = "CRITICAL")
                   (filter (fun f => risk f = CRITICAL) findings
                    ++ filter (fun f => risk f = HIGH) findings)%list
                 = filter (fun f => risk f = CRITICAL) findings).
    { rewrite filter_app.
      rewrite (filter_disjoint _ (fun f => risk f = HIGH))
        by (intros f ->; discriminate).
      rewrite app_nil_r. apply list_filter_filter_r. intros f ->. reflexivity. }
    assert (H2 : filter (fun f => risk_name (risk f) = "HIGH")
                   (filter (fun f => risk f = CRITICAL) findings
                    ++ filter (fun f => risk f = HIGH) findings)%list
                 = filter (fun f => risk f = HIGH) findings).
    { rewrite filter_app.
      rewrite (filter_disjoint _ (fun f => risk f = CRITICAL))
        by (intros f ->; discriminate).
      apply list_filter_filter_r. intros f ->. reflexivity. }
    unfold summary_counts. rewrite H1, H2, length_app. reflexivity.
Qed.

Lemma extract_context_positive_line
    (read_lines : string -> ReadOutcome) (filepath : string)
    (line_number context_lines : Z) :
  1 <= line_number ->
  read_lines filepath <> OtherReadError ->
  exists context,
    extract_context read_lines filepath line_number context_lines = Returns context.
Proof.
  intros Hline Hread. unfold extract_context.
  destruct (read_lines filepath) as [lines| |]; [|eauto|done].
  destruct (Z.ltb_spec (line_number - 1) (Z.of_nat (List.length lines))); [|simpl; eauto].
  destruct (getitem lines (line_number - 1)) as [x|e] eqn:Hget; [simpl; eauto|].
  apply getitem_raises in Hget as [_ Hrange]. lia.
Qed.

(** X23: for the findings of [scan_file] the step of the plan that cuts the
    context window and picks the fix raises only if reading the source file
    fails with an error other than [FileNotFoundError]: the line number of a
    finding is at least 1, so there is no [IndexError]. *)
Theorem remediation_step_safe
    (read_file : string -> option string) (normpath : string -> string)
    (self : PQCScanner) (filepath : string) (findings : list Finding) (f : Finding)
    (read_lines : string -> ReadOutcome) (path_join : string -> string -> string)
    (base_path : string) :
  scan_file read_file normpath self filepath = Ok findings ->
  f ∈ findings ->
  read_lines (path_join base_path (file f)) <> OtherReadError ->
  exists context,
    extract_context read_lines (path_join base_path (file f)) (Z.of_nat (line f))
      CONTEXT_LINES = Returns context /\
    remediation_step read_lines path_join base_path f =
      Returns (context, generate_fix f context).
Proof.
  intros Hscan Hin Hread.
  destruct (scan_file_elem _ _ _ _ _ _ Hscan Hin) as (src & nd & f0 & _ & _ & Hcall & ->).
  destruct (match_call_fields _ _ _ Hcall) as (_ & _ & Hline & _).
  destruct (extract_context_positive_line read_lines
              (path_join base_path (file (set_file (normpath filepath) f0)))
              (Z.of_nat (line (set_file (normpath filepath) f0))) CONTEXT_LINES)
    as [context Hctx]; [|exact Hread|].
  { change (line (set_file (normpath filepath) f0)) with (line f0). lia. }
  exists context. split; [exact Hctx|].
  unfold remediation_step. by rewrite Hctx.
Qed.

Lemma remediation_step_safe_witness :
  exists context,
    extract_context (fun _ => FileNotFoundError) (slash_join "." (file exponent_only_finding))
      (Z.of_nat (line exponent_only_finding)) CONTEXT_LINES = Returns context /\
    remediation_step (fun _ => FileNotFoundError) slash_join "." exponent_only_finding =
      Returns (context, generate_fix exponent_only_finding context).
Proof.
  apply (remediation_step_safe (fun _ => Some "k = RSA.generate(65537)") id
           (new_scanner (fun _ => Trees.rsa_generate [Trees.integer "65537" 0]) TARGETS)
           "a.py" [exponent_only_finding] exponent_only_finding
           (fun _ => FileNotFoundError) slash_join ".").
  - vm_compute. reflexivity.
  - apply list_elem_of_here.
  - discriminate.
Defined.

End RemediatorFacts.

(** * The summary of the command line tool *)

Module CliFacts.
Import PyLib Cli.

Lemma risk_name_ne (r1 r2 : RiskTier) : r1 <> r2 -> risk_name r1 <> risk_name r2.
Proof. intros Hne E. by apply Hne, risk_name_inj. Qed.

Lemma count_of_cons (r : RiskTier) (f : Finding) (fs : list Finding) :
  count_of r (f :: fs) =
    ((if bool_decide (risk f = r) then 1 else 0) + count_of r fs)%nat.
Proof.
  unfold count_of. rewrite filter_cons.
  case_bool_decide; [rewrite decide_True by done | rewrite decide_False by done];
    reflexivity.
Qed.

Lemma count_risks_spec (findings : list Finding) (m : gmap string nat) :
  (forall r, is_Some (m !! risk_name r)) ->
  exists m',
    count_risks findings m = Returns m' /\
    forall r, m' !! risk_name r =
              Some (default 0%nat (m !! risk_name r) + count_of r findings)%nat.
Proof.
  revert m. induction findings as [|f fs IH]; intros m Hall.
  - exists m. split; [reflexivity|]. intros r.
    destruct (Hall r) as [n Hn]. rewrite Hn. simpl. f_equal.
    unfold count_of. simpl. lia.
  - cbn [count_risks]. rewrite bool_decide_eq_true_2 by apply Hall.
    unfold increment. destruct (Hall (risk f)) as [n Hn]. rewrite Hn.
    cbn [mbind outcome_bind].
    destruct (IH (<[risk_name (risk f) := (n + 1)%nat]> m)) as (m' & Hrun & Hm').
    { intros r. destruct (decide (risk f = r)) as [<-|Hne].
      - rewrite lookup_insert_eq. eauto.
      - rewrite lookup_insert_ne by (by apply risk_name_ne). apply Hall. }
    exists m'. split; [exact Hrun|]. intros r. rewrite Hm', count_of_cons.
    f_equal. case_bool_decide as Hr.
    + subst r. rewrite lookup_insert_eq, Hn. simpl. lia.
    + rewrite lookup_insert_ne by (by apply risk_name_ne). lia.
Qed.

Lemma initial_risk_counts_lookup (r : RiskTier) :
  initial_risk_counts !! risk_name r = Some 0%nat.
Proof. by destruct r. Qed.

Lemma length_by_risk (findings : list Finding) :
  List.length findings =
    (count_of CRITICAL findings + count_of HIGH findings + count_of MEDIUM findings
     + count_of LOW findings + count_of UNKNOWN findings)%nat.
Proof.
  induction findings as [|f fs IH]; [reflexivity|].
  rewrite !count_of_cons. simpl List.length. rewrite IH.
  destruct (risk f); repeat case_bool_decide; try discriminate; try done; lia.
Qed.

(** X24: [print_summary] never raises; each of its five counters ends as the
    number of findings of that risk, so the counters add up to the number of
    findings and the fallback that counts an unlisted risk as UNKNOWN is
    never taken; [vulnerable] is the number of CRITICAL and HIGH findings,
    which is the length of the remediator's priority list, and [total] is the
    number of findings, or 1 for an empty list. *)
Theorem print_summary_counts (findings : list Finding) :
  exists s,
    print_summary findings = Returns s /\
    (forall r, risk_counts s !! risk_name r = Some (count_of r findings)) /\
    (count_of CRITICAL findings + count_of HIGH findings + count_of MEDIUM findings
     + count_of LOW findings + count_of UNKNOWN findings)%nat = List.length findings /\
    vulnerable s = (count_of CRITICAL findings + count_of HIGH findings)%nat /\
    (forall plan, Remediator.priority_findings findings = Returns plan ->
                  List.length plan = vulnerable s) /\
    total s = Nat.max 1 (List.length findings) /\
    (vulnerable s <= total s)%nat.
Proof.
  destruct (count_risks_spec findings initial_risk_counts) as (m & Hrun & Hm).
  { intros r. rewrite initial_risk_counts_lookup. eauto. }
  assert (Hcount : forall r, m !! risk_name r = Some (count_of r findings)).
  { intros r. rewrite Hm, initial_risk_counts_lookup. reflexivity. }
  unfold print_summary. rewrite Hrun. cbn [mbind outcome_bind].
  unfold subscript.
  rewrite (Hcount CRITICAL : m !! "CRITICAL" = _). cbn [mbind outcome_bind].
  rewrite (Hcount HIGH : m !! "HIGH" = _). cbn [mbind outcome_bind].
  eexists. split; [reflexivity|]. cbn [risk_counts vulnerable total].
  pose proof (length_by_risk findings) as Hlen.
  split; [exact Hcount|]. split; [lia|]. split; [reflexivity|]. split; [|split].
  - intros plan Hplan.
    rewrite RemediatorFacts.priority_findings_eq in Hplan.
    injection Hplan as <-. by rewrite length_app.
  - destruct (Nat.eqb_spec (List.length findings) 0); lia.
  - destruct (Nat.eqb_spec (List.length findings) 0); lia.
Qed.

End CliFacts.
